(** * Impostor: the Discord bot that mirrors an Among Us lobby onto voice channels

    A shallow embedding of [bot/src/listeners.ts] (voice-state listeners, the
    membership index, the command parser), [bot/src/actions.ts] (session
    creation and cleanup, the two membership reconcilers, the status message)
    and [bot/src/index.ts] (the startup routine), with the properties the
    design document states about them.

    Conventions of the embedding:
    - a JavaScript string is a Rocq [string]; the ECMAScript library functions
      used by the parser ([slice], [indexOf], [trim], [toUpperCase],
      [includes]) are written out on the 7-bit ASCII range, and statements
      that go through [toUpperCase] are restricted to that range;
    - [VOICE_CHANNEL_USERS], a [Map<string, string[]>], is a
      [gmap string (list string)];
    - asynchronous functions are computations in a state-and-exception monad
      over a [World] holding the membership index, the persisted sessions and
      the log of platform calls issued so far; whether the platform rejects a
      call, and the identifiers it mints, are given by an [Env];
    - every asynchronous function runs uninterrupted: interleaving with other
      event handlers at suspension points is outside the embedding. *)

From Stdlib Require Import ZArith Lia Ascii.
From stdpp Require Import base option strings gmap list.

Local Open Scope Z_scope.

(** ** ECMAScript strings *)

Module JS.

(** Code units that [trim] strips (WhiteSpace and LineTerminator), in the
    ASCII range: TAB, LF, VT, FF, CR and SPACE. *)
Definition isWhiteSpace (c : ascii) : bool :=
  let n := Ascii.N_of_ascii c in
  ((9 <=? n)%N && (n <=? 13)%N) || (n =? 32)%N.

Definition isLower (c : ascii) : bool :=
  let n := Ascii.N_of_ascii c in (97 <=? n)%N && (n <=? 122)%N.

Definition isUpper (c : ascii) : bool :=
  let n := Ascii.N_of_ascii c in (65 <=? n)%N && (n <=? 90)%N.

Definition isAscii (c : ascii) : bool := (Ascii.N_of_ascii c <? 128)%N.

Definition upperChar (c : ascii) : ascii :=
  if isLower c then Ascii.ascii_of_N (Ascii.N_of_ascii c - 32) else c.

(** [s.length] *)
Definition length (s : string) : Z := Z.of_nat (String.length s).

(** [s.toUpperCase()], on ASCII. *)
Fixpoint toUpperCase (s : string) : string :=
  match s with
  | EmptyString => EmptyString
  | String c r => String (upperChar c) (toUpperCase r)
  end.

Fixpoint trimStart (s : string) : string :=
  match s with
  | EmptyString => EmptyString
  | String c r => if isWhiteSpace c then trimStart r else s
  end.

Fixpoint trimEnd (s : string) : string :=
  match s with
  | EmptyString => EmptyString
  | String c r =>
      match trimEnd r with
      | EmptyString => if isWhiteSpace c then EmptyString else String c EmptyString
      | r' => String c r'
      end
  end.

(** [s.trim()] *)
Definition trim (s : string) : string := trimEnd (trimStart s).

(** [s.indexOf(needle)]: the first position of [needle], or -1. *)
Definition indexOf (s needle : string) : Z :=
  match String.index 0 needle s with
  | Some i => Z.of_nat i
  | None => -1
  end.

(** [s.includes(needle)] *)
Definition includes (s needle : string) : bool :=
  match String.index 0 needle s with
  | Some _ => true
  | None => false
  end.

(** A relative index as [slice] resolves it: negative counts from the
    end, and the result is clamped to [0, len]. *)
Definition relative (len i : Z) : Z :=
  if i <? 0 then Z.max (len + i) 0 else Z.min i len.

(** [s.slice(start)] and [s.slice(start, end)] *)
Definition slice (s : string) (start : Z) (end_ : option Z) : string :=
  let len := length s in
  let from := relative len start in
  let to := match end_ with Some e => relative len e | None => len end in
  String.substring (Z.to_nat from) (Z.to_nat (Z.max (to - from) 0)) s.

(** [[...s]]: the characters of [s], each as a one-character string. *)
Fixpoint spread (s : string) : list string :=
  match s with
  | EmptyString => []
  | String c r => String c EmptyString :: spread r
  end.

(** [xs.some(p)] *)
Definition some {A} (p : A -> bool) (xs : list A) : bool := existsb p xs.

(** [xs.find(p)] *)
Definition find {A} (p : A -> bool) (xs : list A) : option A := List.find p xs.

(** [xs.pop()]: removes and returns the last element. *)
Fixpoint pop {A} (xs : list A) : option A * list A :=
  match xs with
  | [] => (None, [])
  | [x] => (Some x, [])
  | x :: r => let '(o, r') := pop r in (o, x :: r')
  end.

(** [xs.indexOf(x)] on an array: the first position of [x], or -1. *)
Fixpoint indexOfList `{EqDecision A} (xs : list A) (x : A) : Z :=
  match xs with
  | [] => -1
  | y :: r =>
      if decide (y = x) then 0
      else let i := indexOfList r x in if i =? -1 then -1 else i + 1
  end.

(** [xs.splice(idx, 1)] for an index within the array. *)
Definition splice1 {A} (xs : list A) (idx : Z) : list A := delete (Z.to_nat idx) xs.

(** [s.startsWith(p)] *)
Definition startsWith (s p : string) : bool := String.prefix p s.

End JS.

(** ** Enumerations and entities *)

(** The enumerations of [./constants] and the entities of [./database] are
    not among the sources; their members below are the ones the sources
    name. *)

(** Modelled from the spec: [LobbyRegion] of [./constants]. Its members are
    interpolated into the status texts as server names, so each is a
    non-empty string and [!region] holds for [null] only. *)
Inductive LobbyRegion := ASIA | EUROPE | NORTH_AMERICA.

(** Modelled from the spec: [SessionState] of [./constants]; the design
    lists the states LOBBY, PLAYING, DISCUSSING and the terminal ENDED. *)
Inductive SessionState := LOBBY | PLAYING | DISCUSSING | ENDED.

Inductive SessionChannelType := CATEGORY | TALKING | SILENCE | ADMIN_SILENCE.

(** Modelled from the spec: [SILENCE_CHANNELS] of
    [./database/session-channel], the silence-typed channel roles
    (SILENCE and ADMIN_SILENCE). *)
Definition SILENCE_CHANNELS : list SessionChannelType := [SILENCE; ADMIN_SILENCE].

#[global] Instance LobbyRegion_eq_dec : EqDecision LobbyRegion.
Proof. solve_decision. Defined.
#[global] Instance SessionState_eq_dec : EqDecision SessionState.
Proof. solve_decision. Defined.
#[global] Instance SessionChannelType_eq_dec : EqDecision SessionChannelType.
Proof. solve_decision. Defined.

(** [new SessionChannel(channelId, type)]; [invite] is set by the session
    runner on the talking channel only. *)
Record SessionChannel := mkSessionChannel {
  channelId : string;
  type : SessionChannelType;
  invite : option string;
}.

(** [AmongUsSession]; [pk] is the primary key under which the entity manager
    holds the record, [channels] its loaded collection. *)
Record AmongUsSession := mkSession {
  pk : nat;
  guild : string;
  channel : string;
  message : string;
  user : string;
  state : SessionState;
  region : LobbyRegion;
  lobbyCode : string;
  channels : list SessionChannel;
}.

#[global] Instance SessionChannel_eq_dec : EqDecision SessionChannel.
Proof. solve_decision. Defined.
#[global] Instance AmongUsSession_eq_dec : EqDecision AmongUsSession.
Proof. solve_decision. Defined.

Definition set_channels (s : AmongUsSession) (cs : list SessionChannel) : AmongUsSession :=
  mkSession (pk s) (guild s) (channel s) (message s) (user s) (state s)
            (region s) (lobbyCode s) cs.

(** [eris.Member], [eris.Message]: the fields the handlers read. *)
Record Member := mkMember { member_id : string; member_guild : string }.

Record Message := mkMessage {
  content : string;
  author_id : string;
  author_username : string;
  author_bot : bool;
  msg_channel : string;
  msg_channel_is_text : bool;   (* msg.channel instanceof eris.TextChannel *)
  msg_guild : string;           (* msg.channel.guild.id *)
}.

(** ** Platform calls *)

Record Footer := mkFooter { icon_url : string; text : string }.

Record Embed := mkEmbed {
  color : Z;
  title : option string;
  description : string;
  footer : option Footer;
}.

Inductive Content := Text (s : string) | Embedded (e : Embed).

Record Overwrite := mkOverwrite {
  ow_type : string; ow_id : string; ow_deny : Z; ow_allow : Z;
}.

#[global] Instance Footer_eq_dec : EqDecision Footer.
Proof. solve_decision. Defined.
#[global] Instance Embed_eq_dec : EqDecision Embed.
Proof. solve_decision. Defined.
#[global] Instance Content_eq_dec : EqDecision Content.
Proof. solve_decision. Defined.
#[global] Instance Overwrite_eq_dec : EqDecision Overwrite.
Proof. solve_decision. Defined.

(** The calls that leave the process: the chat platform's API, the
    session runner, and what the startup routine does. *)
Inductive Call :=
| deleteChannel (channelID reason : string)
| editGuildMember (guildID memberID channelID : string)
| createMessage (channelID : string) (c : Content)
| createChannel (guildID name : string) (kind : Z) (parentID : string)
                (permissionOverwrites : list Overwrite)
| editMessage (channelID messageID : string) (e : Embed)
| startSession (session : AmongUsSession)
| consoleLog (line : string)
| connectToDatabase
| connect
| onceReady.

#[global] Instance Call_eq_dec : EqDecision Call.
Proof. solve_decision. Defined.

(** What can be thrown: a string ([throw "..."]), the TypeError of reading a
    property of [undefined], or the rejection of a call. *)
Inductive Thrown :=
| Str (s : string)
| TypeError
| Rejected (c : Call).

Inductive Completion (A : Type) :=
| Return (a : A)
| Throw (e : Thrown).
Arguments Return {A} a.
Arguments Throw {A} e.

(** [`${e}`]. The texts of runtime and platform errors are theirs, not the
    sources'; they are abbreviated. *)
Definition toString (e : Thrown) : string :=
  match e with
  | Str s => s
  | TypeError => "TypeError"
  | Rejected _ => "Error"
  end.

Definition COMMAND_PREFIX : string := "!amongus ".
Definition V2 : string := "QWXRTYLPESDFGHUJKZOCVBINMA".

(** ** The command parser (listeners.ts) *)

Definition INVALID_LENGTH : string :=
  "Invalid lobby code. The lobby code must be exactly 6 letters.".
Definition INVALID_CHARACTERS : string :=
  "Invalid lobby code. The lobby code contains invalid characters.".
Definition NO_REGION : string :=
  "Could not determine the region of the lobby. Try doing `" +:+
  COMMAND_PREFIX +:+ "na ABCDEF` or `" +:+ COMMAND_PREFIX +:+ "europe GHIJKL`.".

Definition validateLobbyCode (code : string) : Completion string :=
  let code := JS.toUpperCase (JS.trim code) in
  if negb (JS.length code =? 6) then Throw (Str INVALID_LENGTH)
  else if JS.some (fun x => negb (JS.includes V2 x)) (JS.spread code)
  then Throw (Str INVALID_CHARACTERS)
  else Return code.

Definition parseCommandInvocation (msg : string) : Completion (LobbyRegion * string) :=
  let msg := JS.slice msg (JS.length COMMAND_PREFIX) None in
  let region : option LobbyRegion := None in
  let nextWord := JS.slice msg 0 (Some (JS.indexOf msg " ")) in
  let '(region, msg) :=
    if String.eqb nextWord "asia" || String.eqb nextWord "as"
    then (Some ASIA, JS.slice msg (JS.length nextWord) None)
    else (region, msg) in
  let '(region, msg) :=
    if String.eqb nextWord "eu" || String.eqb nextWord "europe"
    then (Some EUROPE, JS.slice msg (JS.length nextWord) None)
    else (region, msg) in
  let '(region, msg) :=
    if String.eqb nextWord "us" || String.eqb nextWord "usa" ||
       String.eqb nextWord "na" || String.eqb nextWord "america" ||
       String.eqb nextWord "northamerica"
    then (Some NORTH_AMERICA, JS.slice msg (JS.length nextWord) None)
    else (region, msg) in
  let '(region, msg) :=
    if String.eqb nextWord "north"
    then
      let msg := JS.trim (JS.slice msg (JS.length nextWord) None) in
      let nextNextWord := JS.slice msg 0 (Some (JS.indexOf msg " ")) in
      if String.eqb nextNextWord "america"
      then (Some NORTH_AMERICA, JS.slice msg (JS.length nextNextWord) None)
      else (region, msg)
    else (region, msg) in
  match region with
  | None => Throw (Str NO_REGION)
  | Some region =>
      match validateLobbyCode msg with
      | Throw e => Throw e
      | Return code => Return (region, code)
      end
  end.

(** ** The surroundings of the bot *)

(** What the sources leave to their surroundings: whether the platform (or
    the session runner) rejects a call, the identifiers the platform mints
    for the messages and channels it creates, and the declarations the
    sources import from modules that are not among them: [isMemberAdmin]
    (imported by actions.ts) and the string values of [LobbyRegion]. *)
Record Env := mkEnv {
  rejects : Call -> bool;
  snowflake : nat -> string;
  isMemberAdmin : string -> bool;
  regionText : LobbyRegion -> string;
  botUsername : string;
}.

(** The mutable state: the module-level membership index of listeners.ts,
    the records the entity manager holds, the calls issued so far (oldest
    first), and how many identifiers the platform and the database have
    handed out. *)
Record World := mkWorld {
  VOICE_CHANNEL_USERS : gmap string (list string);
  store : list AmongUsSession;
  calls : list Call;
  minted : nat;
  nextPk : nat;
}.

Definition set_index (w : World) (I : gmap string (list string)) : World :=
  mkWorld I (store w) (calls w) (minted w) (nextPk w).
Definition set_store (w : World) (db : list AmongUsSession) : World :=
  mkWorld (VOICE_CHANNEL_USERS w) db (calls w) (minted w) (nextPk w).
Definition record_call (w : World) (c : Call) : World :=
  mkWorld (VOICE_CHANNEL_USERS w) (store w) (calls w ++ [c]) (minted w) (nextPk w).
Definition mint (w : World) : World :=
  mkWorld (VOICE_CHANNEL_USERS w) (store w) (calls w) (S (minted w)) (nextPk w).

(** ** Asynchronous computations *)

Definition M (A : Type) : Type := World -> Completion A * World.

Definition ret {A} (a : A) : M A := fun w => (Return a, w).

Definition throw {A} (e : Thrown) : M A := fun w => (Throw e, w).

Definition bind {A B} (m : M A) (k : A -> M B) : M B := fun w =>
  match m w with
  | (Return a, w') => k a w'
  | (Throw e, w') => (Throw e, w')
  end.

Declare Scope async_scope.
Delimit Scope async_scope with async.
Bind Scope async_scope with M.
Notation "x <- m ;; k" := (bind m (fun x => k))
  (at level 100, m at next level, right associativity) : async_scope.
Notation "m ;; k" := (bind m (fun _ => k))
  (at level 100, right associativity) : async_scope.

(** [try { m } catch (e) { h e }] *)
Definition try_catch {A} (m : M A) (h : Thrown -> M A) : M A := fun w =>
  match m w with
  | (Return a, w') => (Return a, w')
  | (Throw e, w') => h e w'
  end.

(** [p.catch(() => {})] *)
Definition swallow {A} (m : M A) : M unit :=
  try_catch (bind m (fun _ => ret tt)) (fun _ => ret tt).

(** [await Promise.all(ps)] where every promise of [ps] has been started
    before the first one is awaited: each of them runs whatever the others
    do, and the whole rejects when one of them does. (With several
    rejections JavaScript reports the one that settles first; here the first
    in array order.) *)
Fixpoint all (ps : list (M unit)) : M unit := fun w =>
  match ps with
  | [] => (Return tt, w)
  | p :: ps =>
      let '(r, w1) := p w in
      let '(rs, w2) := all ps w1 in
      (match r with Throw e => Throw e | Return _ => rs end, w2)
  end.

(** [for (const x of xs) { await body(x) }] *)
Fixpoint forOf {A} (xs : list A) (body : A -> M unit) : M unit :=
  match xs with
  | [] => ret tt
  | x :: r => bind (body x) (fun _ => forOf r body)
  end.

(** [x!.channelId] where [x] may be [undefined]. *)
Definition channelIdOf (x : option SessionChannel) : M string :=
  match x with
  | Some c => ret (channelId c)
  | None => throw TypeError
  end.

Definition exec {A} (m : M A) (w : World) : World := snd (m w).
Definition result {A} (m : M A) (w : World) : Completion A := fst (m w).

(** The calls a computation adds to the log. *)
Definition issued {A} (m : M A) (w : World) : list Call :=
  drop (length (calls w)) (calls (exec m w)).

Section Bot.

Context (E : Env).

Local Open Scope async_scope.

(** A call whose answer carries nothing the sources use. *)
Definition perform (c : Call) : M unit := fun w =>
  (if rejects E c then Throw (Rejected c) else Return tt, record_call w c).

(** A call that creates a message or a channel and answers with it. *)
Definition performId (c : Call) : M string := fun w =>
  if rejects E c then (Throw (Rejected c), record_call w c)
  else (Return (snowflake E (minted w)), mint (record_call w c)).

(** *** listeners.ts *)

Definition getMembersInChannel (w : World) (channel : string) : list string :=
  default [] (VOICE_CHANNEL_USERS w !! channel).

(** [orm.em.findOne(SessionChannel, { channelId, type: TALKING }, ["session"])] *)
Fixpoint findOneTalking (db : list AmongUsSession) (cid : string)
  : option (SessionChannel * AmongUsSession) :=
  match db with
  | [] => None
  | s :: r =>
      match JS.find (fun x => bool_decide (channelId x = cid) &&
                              bool_decide (type x = TALKING)) (channels s) with
      | Some x => Some (x, s)
      | None => findOneTalking r cid
      end
  end.

Definition onVoiceJoin (member : Member) (newChannel : string) : M unit :=
  (fun w => (Return tt,
             set_index w (<[newChannel := getMembersInChannel w newChannel ++ [member_id member]]>
                            (VOICE_CHANNEL_USERS w)))) ;;
  relevantChannel <- (fun w => (Return (findOneTalking (store w) newChannel), w)) ;;
  match relevantChannel with
  | None => ret tt
  | Some (_, session) =>
      if bool_decide (state session = PLAYING) then
        let playingChannel :=
          JS.find (fun x => bool_decide (type x = SILENCE)) (channels session) in
        cid <- channelIdOf playingChannel ;;
        perform (editGuildMember (member_guild member) (member_id member) cid)
      else ret tt
  end.

Definition onVoiceLeave (member : Member) (oldChannel : string) : M unit := fun w =>
  match VOICE_CHANNEL_USERS w !! oldChannel with
  | None => (Return tt, w)
  | Some users =>
      let idx := JS.indexOfList users (member_id member) in
      if idx =? -1 then (Return tt, w)
      else (Return tt,
            set_index w (<[oldChannel := JS.splice1 users idx]> (VOICE_CHANNEL_USERS w)))
  end.

Definition onVoiceChange (member : Member) (newChannel oldChannel : string) : M unit :=
  onVoiceLeave member oldChannel ;;
  onVoiceJoin member newChannel.

(** *** actions.ts *)

Definition LOADING : Z := 0x36393f.
Definition INFO : Z := 0x0a96de.
Definition ERROR : Z := 0xfd5c5c.
Definition WARN : Z := 0xed872d.

(** [eris.Constants.Permissions] *)
Definition voiceSpeak : Z := Z.shiftl 1 21.
Definition readMessages : Z := Z.shiftl 1 10.

(** [orm.em.persist(session); orm.em.flush()] for a new record. *)
Definition persistAndFlush (mk : nat -> AmongUsSession) : M AmongUsSession := fun w =>
  let session := mk (nextPk w) in
  (Return session,
   mkWorld (VOICE_CHANNEL_USERS w) (store w ++ [session]) (calls w) (minted w)
           (S (nextPk w))).

(** [orm.em.removeAndFlush(session)] *)
Definition removeAndFlush (session : AmongUsSession) : M unit := fun w =>
  (Return tt,
   set_store w (List.filter (fun s => negb (Nat.eqb (pk s) (pk session))) (store w))).

(** [orm.em.find(AmongUsSession, {}, ["channels"])] *)
Definition findAll : M (list AmongUsSession) := fun w => (Return (store w), w).

Definition createEmptyNewSession (msg : Message) (region : LobbyRegion) (code : string)
  : M AmongUsSession :=
  messageId <- performId (createMessage (msg_channel msg) (Embedded {|
    color := LOADING;
    title := None;
    description := "<a:loading:572067799535452171> Attempting to connect to lobby `"
                   +:+ code +:+ "` on " +:+ regionText E region +:+ "...";
    footer := None |})) ;;
  persistAndFlush (fun key =>
    mkSession key (msg_guild msg) (msg_channel msg) messageId (author_username msg)
              LOBBY region code []).

Definition AMONG_US_LINK : string :=
  "[Among Us](http://www.innersloth.com/gameAmongUs.php)".

Definition updateMessageWithError (session : AmongUsSession) (error : string) : M unit :=
  perform (editMessage (channel session) (message session) {|
    color := ERROR;
    title := Some "🎲 Among Us - Error";
    description := error;
    footer := None |}).

Definition updateMessageWithSessionOver (session : AmongUsSession) : M unit :=
  perform (editMessage (channel session) (message session) {|
    color := ERROR;
    title := Some "🎲 Among Us - Session Over";
    description := user session +:+ " was hosting a game of " +:+ AMONG_US_LINK
                   +:+ " here, but the lobby closed.";
    footer := None |}).

Definition staleEmbed (session : AmongUsSession) : Embed := {|
  color := ERROR;
  title := Some "🎲 Among Us - Session Over";
  description := user session +:+ " was hosting a game of " +:+ AMONG_US_LINK
                 +:+ " here, but an unexpected error happened. Try again in a bit?";
  footer := None |}.

Definition updateMessageWithSessionStale (session : AmongUsSession) : M unit :=
  perform (editMessage (channel session) (message session) (staleEmbed session)).

Definition cleanUpSession (session : AmongUsSession) : M unit :=
  forOf (channels session) (fun channel =>
    perform (deleteChannel (channelId channel) "Among Us: Session is over.")) ;;
  updateMessageWithSessionStale session ;;
  removeAndFlush session.

Definition cleanUpOldSessions : M unit :=
  sessions <- findAll ;;
  forOf sessions cleanUpSession.

Definition moveAllPlayers (session : AmongUsSession) (idFrom idTo : string) : M unit :=
  fun w =>
    all (map (fun x => perform (editGuildMember (guild session) x idTo))
             (getMembersInChannel w idFrom)) w.

Definition movePlayersToTalkingChannel (session : AmongUsSession) : M unit :=
  let talkingChannel :=
    JS.find (fun x => bool_decide (type x = TALKING)) (channels session) in
  let silenceChannels :=
    List.filter (fun x => bool_decide (type x ∈ SILENCE_CHANNELS)) (channels session) in
  match silenceChannels with
  | [] => ret tt
  | _ :: _ =>
      talkingId <- channelIdOf talkingChannel ;;
      all (map (fun x => moveAllPlayers session (channelId x) talkingId) silenceChannels)
  end.

Definition adminNotice (adminId : string) : string :=
  "<@!" +:+ adminId +:+
  ">, since you're an administrator I won't be able to mute you. Instead, you're getting your own channel.".

(** The body of [for (const adminId of adminPlayersInTalkingChannel)],
    threading the two objects it mutates: the array of empty admin
    channels and the session's collection of channels. *)
Fixpoint assignAdminChannels (categoryChannel : option SessionChannel)
         (adminPlayers : list string) (emptyAdminChannels : list SessionChannel)
         (session : AmongUsSession) : M AmongUsSession :=
  match adminPlayers with
  | [] => ret session
  | adminId :: rest =>
      let '(appropriateAdminChannel, emptyAdminChannels) := JS.pop emptyAdminChannels in
      match appropriateAdminChannel with
      | Some c =>
          perform (editGuildMember (guild session) adminId (channelId c)) ;;
          assignAdminChannels categoryChannel rest emptyAdminChannels session
      | None =>
          performId (createMessage (channel session) (Text (adminNotice adminId))) ;;
          parentID <- channelIdOf categoryChannel ;;
          adminChannel <- performId
            (createChannel (guild session) "Among Us - Admin Playing Channel" 2 parentID
               [ {| ow_type := "role"; ow_id := guild session;
                    ow_deny := Z.lor voiceSpeak readMessages; ow_allow := 0 |} ]) ;;
          let session :=
            set_channels session
              (channels session ++ [mkSessionChannel adminChannel ADMIN_SILENCE None]) in
          perform (editGuildMember (guild session) adminId adminChannel) ;;
          assignAdminChannels categoryChannel rest emptyAdminChannels session
      end
  end.

(** The session's collection is mutated in place; the result is the
    session as the caller sees it afterwards. *)
Definition movePlayersToSilenceChannel (session : AmongUsSession) : M AmongUsSession :=
  let categoryChannel :=
    JS.find (fun x => bool_decide (type x = CATEGORY)) (channels session) in
  let talkingChannel :=
    JS.find (fun x => bool_decide (type x = TALKING)) (channels session) in
  let silenceChannel :=
    JS.find (fun x => bool_decide (type x = SILENCE)) (channels session) in
  talkingId <- channelIdOf talkingChannel ;;
  w <- (fun w => (Return w, w)) ;;
  let playersInTalkingChannel := getMembersInChannel w talkingId in
  let normalPlayersInTalkingChannel :=
    List.filter (fun x => negb (isMemberAdmin E x)) playersInTalkingChannel in
  let adminPlayersInTalkingChannel :=
    List.filter (isMemberAdmin E) playersInTalkingChannel in
  let emptyAdminChannels :=
    List.filter (fun x => bool_decide (type x = ADMIN_SILENCE) &&
                          (Z.of_nat (length (getMembersInChannel w (channelId x))) =? 0))
                (channels session) in
  session <- assignAdminChannels categoryChannel adminPlayersInTalkingChannel
                                 emptyAdminChannels session ;;
  match normalPlayersInTalkingChannel with
  | [] => ret tt
  | _ :: _ =>
      silenceId <- channelIdOf silenceChannel ;;
      all (map (fun id => perform (editGuildMember (guild session) id silenceId))
               normalPlayersInTalkingChannel)
  end ;;
  ret session.

Definition BOT_ICON : string :=
  "https://cdn.discordapp.com/icons/579772930607808537/2d2607a672f2529206edd929ef55173e.png?size=128".

Definition reminder : option Footer :=
  Some {| icon_url := BOT_ICON; text := "Reminder: the bot takes up a player spot!" |}.

(** [`${mainChannel.invite}`] *)
Definition inviteText (c : SessionChannel) : string := default "undefined" (invite c).

Definition hostingText (session : AmongUsSession) (mainChannel : SessionChannel) : string :=
  user session +:+ " is hosting a game of " +:+ AMONG_US_LINK
  +:+ "! Join the voice channel <#" +:+ channelId mainChannel
  +:+ "> or click [here](https://discord.gg/" +:+ inviteText mainChannel
  +:+ ") to join the voice chat. ".

Definition mainChannelOf (session : AmongUsSession) : M SessionChannel :=
  match JS.find (fun x => bool_decide (type x = TALKING)) (channels session) with
  | Some c => ret c
  | None => throw TypeError
  end.

Definition updateMessageToPlaying (session : AmongUsSession) : M unit :=
  mainChannel <- mainChannelOf session ;;
  perform (editMessage (channel session) (message session) {|
    color := WARN;
    title := Some ("🎲 Among Us - " +:+ regionText E (region session) +:+ " - "
                   +:+ lobbyCode session +:+ " (In Game)");
    description := hostingText session mainChannel
      +:+ "~~To join the Among Us lobby, select the **" +:+ regionText E (region session)
      +:+ "** server and enter code `" +:+ lobbyCode session
      +:+ "`.~~ The lobby is currently ongoing! You'll need to wait for the round to end before you can join.";
    footer := reminder |}).

Definition updateMessageToLobby (session : AmongUsSession) : M unit :=
  mainChannel <- mainChannelOf session ;;
  perform (editMessage (channel session) (message session) {|
    color := INFO;
    title := Some ("🎲 Among Us - " +:+ regionText E (region session) +:+ " - "
                   +:+ lobbyCode session);
    description := hostingText session mainChannel
      +:+ "To join the Among Us lobby, select the **" +:+ regionText E (region session)
      +:+ "** server and enter code `" +:+ lobbyCode session +:+ "`.";
    footer := reminder |}).

Definition updateMessage (session : AmongUsSession) : M unit :=
  (if bool_decide (state session = LOBBY)
   then updateMessageToLobby session else ret tt) ;;
  (if bool_decide (state session = PLAYING) || bool_decide (state session = DISCUSSING)
   then updateMessageToPlaying session else ret tt).

(** *** listeners.ts, the message listener *)

Definition onMessageCreated (msg : Message) : M unit :=
  if negb (JS.startsWith (content msg) COMMAND_PREFIX) || author_bot msg then ret tt
  else if negb (msg_channel_is_text msg) then ret tt
  else
    try_catch
      (parsed <- (fun w => (parseCommandInvocation (content msg), w)) ;;
       let '(region, code) := parsed in
       session <- createEmptyNewSession msg region code ;;
       perform (startSession session))
      (fun e =>
         swallow (performId (createMessage (msg_channel msg)
           (Text ("<@!" +:+ author_id msg +:+ ">, sorry but something went wrong: "
                  +:+ toString e))))).

(** *** index.ts *)

(** The startup routine. Constructing the client ([new Eris.Client]) has no
    effect outside the process and leaves no trace here. *)
Definition main : M unit :=
  perform (consoleLog "[+] Starting impostor...") ;;
  perform connectToDatabase ;;
  perform (consoleLog "[+] Connected to database!") ;;
  perform connect ;;
  perform onceReady ;;
  perform (consoleLog ("[+] Connected to Discord as " +:+ botUsername E)).

End Bot.

(** * Properties *)

(** ** Auxiliary definitions of the statements *)

(** Structural counterparts of [slice], used to evaluate the parser on a
    command whose tail is arbitrary. *)
Fixpoint dropS (n : nat) (s : string) : string :=
  match n, s with
  | O, _ => s
  | S n, String _ r => dropS n r
  | S _, EmptyString => EmptyString
  end.

Fixpoint takeS (n : nat) (s : string) : string :=
  match n, s with
  | O, _ => EmptyString
  | S n, String c r => String c (takeS n r)
  | S _, EmptyString => EmptyString
  end.

Definition nextWordS (s : string) : string :=
  match String.index 0 " " s with
  | Some i => takeS i s
  | None => takeS (String.length s - 1) s
  end.

Fixpoint chars (s : string) : list ascii :=
  match s with
  | EmptyString => []
  | String c r => c :: chars r
  end.

(** A character of the code alphabet, up to case: its upper case is one of
    the 26 symbols of [V2]. *)
Definition isCodeChar (c : ascii) : bool :=
  JS.includes V2 (String (JS.upperChar c) EmptyString).

Definition codeChars (s : string) : bool := forallb isCodeChar (chars s).

Definition asciiOnly (s : string) : bool := forallb JS.isAscii (chars s).

(** The region vocabulary as the design lists it, each token with its
    region. *)
Definition REGION_VOCABULARY : list (string * LobbyRegion) :=
  [ ("eu", EUROPE); ("europe", EUROPE);
    ("na", NORTH_AMERICA); ("us", NORTH_AMERICA); ("usa", NORTH_AMERICA);
    ("america", NORTH_AMERICA); ("north america", NORTH_AMERICA);
    ("as", ASIA); ("asia", ASIA) ].

(** [s.toLowerCase()] on ASCII, for the case-insensitive reading of the
    vocabulary. *)
Definition lowerChar (c : ascii) : ascii :=
  if JS.isUpper c then Ascii.ascii_of_N (Ascii.N_of_ascii c + 32) else c.

Fixpoint toLowerCase (s : string) : string :=
  match s with
  | EmptyString => EmptyString
  | String c r => String (lowerChar c) (toLowerCase r)
  end.

(** The command line [<prefix><token> <code>]. *)
Definition commandLine (token code : string) : string :=
  COMMAND_PREFIX +:+ token +:+ " " +:+ code.

(** What the parser makes of a validated remainder. *)
Definition validated (r : LobbyRegion) (rest : string) : Completion (LobbyRegion * string) :=
  match validateLobbyCode rest with
  | Throw e => Throw e
  | Return code => Return (r, code)
  end.

(** The voice-state events the platform delivers, each to its listener. *)
Inductive VoiceEvent :=
| voiceChannelJoin (member : Member) (newChannel : string)
| voiceChannelLeave (member : Member) (oldChannel : string)
| voiceChannelSwitch (member : Member) (newChannel oldChannel : string).

Definition handle (E : Env) (ev : VoiceEvent) : M unit :=
  match ev with
  | voiceChannelJoin m c => onVoiceJoin E m c
  | voiceChannelLeave m c => onVoiceLeave m c
  | voiceChannelSwitch m new old => onVoiceChange E m new old
  end.

(** Events are handled one after the other; what a listener throws is lost
    with its promise and does not stop the next one. *)
Fixpoint replay (E : Env) (evs : list VoiceEvent) (w : World) : World :=
  match evs with
  | [] => w
  | ev :: rest => replay E rest (exec (handle E ev) w)
  end.

Definition duplicateFree (w : World) : Prop :=
  forall c, NoDup (getMembersInChannel w c).

(** An event that does not bring a member into a channel whose entry
    already lists that member. *)
Definition admissible (w : World) (ev : VoiceEvent) : Prop :=
  match ev with
  | voiceChannelJoin m c => member_id m ∉ getMembersInChannel w c
  | voiceChannelLeave _ _ => True
  | voiceChannelSwitch m new old =>
      member_id m ∉ getMembersInChannel (exec (onVoiceLeave m old) w) new
  end.

Fixpoint admissibleRun (E : Env) (w : World) (evs : list VoiceEvent) : Prop :=
  match evs with
  | [] => True
  | ev :: rest => admissible w ev /\ admissibleRun E (exec (handle E ev) w) rest
  end.

Fixpoint hashes (n : nat) : string :=
  match n with
  | O => EmptyString
  | S n => String "#" (hashes n)
  end.

(** An environment in which every call succeeds; identifiers are minted
    as [#], [##], ...; members whose identifier starts with [admin] are
    administrators. *)
Definition calmEnv : Env := {|
  rejects := fun _ => false;
  snowflake := fun n => hashes (S n);
  isMemberAdmin := fun m => String.prefix "admin" m;
  regionText := fun r =>
    match r with ASIA => "Asia" | EUROPE => "Europe" | NORTH_AMERICA => "North America" end;
  botUsername := "Impostor";
|}.

Definition emptyWorld : World := mkWorld ∅ [] [] 0 0.

(** The world after the calls [cs] have been logged. *)
Definition log_calls (w : World) (cs : list Call) : World :=
  mkWorld (VOICE_CHANNEL_USERS w) (store w) (calls w ++ cs) (minted w) (nextPk w).

(** How a batch of calls awaited together settles: rejected with the first
    call the platform rejects, fulfilled when there is none. *)
Definition outcome (E : Env) (cs : list Call) : Completion unit :=
  match List.find (rejects E) cs with
  | Some c => Throw (Rejected c)
  | None => Return tt
  end.

Definition deletion (c : SessionChannel) : Call :=
  deleteChannel (channelId c) "Among Us: Session is over.".

Definition deletions (s : AmongUsSession) : list Call := map deletion (channels s).

(** The rewrite of the status message to the stale-session variant. *)
Definition staleEdit (s : AmongUsSession) : Call :=
  editMessage (channel s) (message s) (staleEmbed s).

Definition isEditMessage (c : Call) : bool :=
  match c with editMessage _ _ _ => true | _ => false end.

(** The records left when the record of [s] is removed. *)
Definition without (s : AmongUsSession) (db : list AmongUsSession) : list AmongUsSession :=
  List.filter (fun x => negb (Nat.eqb (pk x) (pk s))) db.

Definition withoutAll (ss db : list AmongUsSession) : list AmongUsSession :=
  fold_left (fun db s => without s db) ss db.

(** A session left over by an earlier run. *)
Definition lingering : AmongUsSession :=
  mkSession 7 "guild" "text" "status" "host" PLAYING EUROPE "ABCDEF"
    [ mkSessionChannel "category" CATEGORY None;
      mkSessionChannel "talking" TALKING (Some "invite");
      mkSessionChannel "silence" SILENCE None ].

(** An environment in which the platform no longer knows the channel
    [category] and rejects its deletion; everything else is accepted. *)
Definition goneEnv : Env := {|
  rejects := fun c => bool_decide (c = deletion (mkSessionChannel "category" CATEGORY None));
  snowflake := snowflake calmEnv;
  isMemberAdmin := isMemberAdmin calmEnv;
  regionText := regionText calmEnv;
  botUsername := botUsername calmEnv;
|}.

Definition talkingOf (s : AmongUsSession) : option SessionChannel :=
  JS.find (fun x => bool_decide (type x = TALKING)) (channels s).
Definition silenceOf (s : AmongUsSession) : option SessionChannel :=
  JS.find (fun x => bool_decide (type x = SILENCE)) (channels s).
Definition categoryOf (s : AmongUsSession) : option SessionChannel :=
  JS.find (fun x => bool_decide (type x = CATEGORY)) (channels s).

(** The silence-typed channels of a session. *)
Definition silenceChannelsOf (s : AmongUsSession) : list SessionChannel :=
  List.filter (fun x => bool_decide (type x ∈ SILENCE_CHANNELS)) (channels s).

(** The ADMIN_SILENCE channels of a session that the index shows empty. *)
Definition emptyAdminChannelsOf (s : AmongUsSession) (w : World) : list SessionChannel :=
  List.filter (fun x => bool_decide (type x = ADMIN_SILENCE) &&
                        (Z.of_nat (length (getMembersInChannel w (channelId x))) =? 0))
              (channels s).

Definition adminsIn (E : Env) (players : list string) : list string :=
  List.filter (isMemberAdmin E) players.
Definition normalsIn (E : Env) (players : list string) : list string :=
  List.filter (fun x => negb (isMemberAdmin E x)) players.

(** The call that moves [member] to the voice channel [target]. *)
Definition move (guildID target member : string) : Call :=
  editGuildMember guildID member target.

(** The moves [movePlayersToTalkingChannel] asks for: every member the
    index lists in a silence-typed channel, to the talking channel. *)
Definition movesToTalking (s : AmongUsSession) (w : World) (talkingId : string) : list Call :=
  flat_map (fun x => map (move (guild s) talkingId) (getMembersInChannel w (channelId x)))
           (silenceChannelsOf s).

(** The members and targets of the moves in a log. *)
Definition movesOf (cs : list Call) : list (string * string) :=
  flat_map (fun c => match c with
                     | editGuildMember _ m target => [(m, target)]
                     | _ => []
                     end) cs.

Definition isCreateChannel (c : Call) : bool :=
  match c with createChannel _ _ _ _ _ => true | _ => false end.

(** The world after the calls [cs], [k] of which made the platform mint an
    identifier. *)
Definition advance (w : World) (cs : list Call) (k : nat) : World :=
  mkWorld (VOICE_CHANNEL_USERS w) (store w) (calls w ++ cs) (k + minted w) (nextPk w).

(** What the loop over the administrators does for those that find no
    empty channel, when nothing is rejected: the notice, the new channel
    and the move into it, with the identifiers minted from [n] on. *)
Definition adminOverwrites (guildID : string) : list Overwrite :=
  [ {| ow_type := "role"; ow_id := guildID;
       ow_deny := Z.lor voiceSpeak readMessages; ow_allow := 0 |} ].

Fixpoint creations (E : Env) (guildID textChannel parentID : string) (n : nat)
         (admins : list string) : list Call :=
  match admins with
  | [] => []
  | a :: rest =>
      [ createMessage textChannel (Text (adminNotice a));
        createChannel guildID "Among Us - Admin Playing Channel" 2 parentID
                      (adminOverwrites guildID);
        move guildID (snowflake E (S n)) a ]
      ++ creations E guildID textChannel parentID (S (S n)) rest
  end.

Fixpoint newChannelIds (E : Env) (n : nat) (admins : list string) : list string :=
  match admins with
  | [] => []
  | _ :: rest => snowflake E (S n) :: newChannelIds E (S (S n)) rest
  end.

Definition newChannels (E : Env) (n : nat) (admins : list string) : list SessionChannel :=
  map (fun i => mkSessionChannel i ADMIN_SILENCE None) (newChannelIds E n admins).

(** The moves into the empty admin channels, last channel first. *)
Definition reuses (guildID : string) (admins : list string) (empty : list SessionChannel)
  : list Call :=
  map (fun p => move guildID (channelId (snd p)) (fst p)) (zip admins (reverse empty)).

(** An environment in which the platform rejects moving [bob] to the
    channel [talking] (he has left voice); everything else is accepted. *)
Definition stubbornEnv : Env := {|
  rejects := fun c => bool_decide (c = move "guild" "talking" "bob");
  snowflake := snowflake calmEnv;
  isMemberAdmin := isMemberAdmin calmEnv;
  regionText := regionText calmEnv;
  botUsername := botUsername calmEnv;
|}.

(** A world in which [lingering] is persisted and the index lists the given
    members in its channels. *)
Definition lingeringWorld (talking silence : list string) : World :=
  mkWorld (<["talking" := talking]> (<["silence" := silence]> ∅)) [lingering] [] 0 0.

(** [lingering] with an admin channel left over from an earlier round. *)
Definition lingeringWithRoom : AmongUsSession :=
  set_channels lingering
    (channels lingering ++ [mkSessionChannel "room" ADMIN_SILENCE None]).

(** The targets of the moves in a log that do not go to the channel
    [shared]. *)
Definition targetsBeside (shared : string) (cs : list Call) : list string :=
  List.filter (fun t => negb (String.eqb t shared)) (map snd (movesOf cs)).

(** The platform's identifiers from [n] on are pairwise different and
    different from the channels a session already has. *)
Definition freshFrom (E : Env) (n : nat) (s : AmongUsSession) : Prop :=
  (forall i j, (n <= i)%nat -> (n <= j)%nat -> snowflake E i = snowflake E j -> i = j) /\
  (forall i, (n <= i)%nat -> snowflake E i ∉ map channelId (channels s)).

(** The switch events by which the platform reports that the members [ms]
    of a guild have been moved from the channel [old] to the channel [new]. *)
Definition switches (guildID new old : string) (ms : list string) : list VoiceEvent :=
  map (fun m => voiceChannelSwitch (mkMember m guildID) new old) ms.

(** What [onVoiceLeave] leaves of an entry: the entry without the first
    occurrence of the member. *)
Fixpoint removeFirst (m : string) (l : list string) : list string :=
  match l with
  | [] => []
  | y :: r => if decide (y = m) then r else y :: removeFirst m r
  end.

(** Every character of [s] is one of the 26 symbols of [V2]. *)
Definition inAlphabet (s : string) : bool :=
  forallb (fun c => JS.includes V2 (String c EmptyString)) (chars s).

(** The calls and the record of [onMessageCreated] for a command that
    parses to [region] and [code]. *)
Definition loadingMessage (E : Env) (msg : Message) (region : LobbyRegion) (code : string)
  : Call :=
  createMessage (msg_channel msg) (Embedded {|
    color := LOADING;
    title := None;
    description := "<a:loading:572067799535452171> Attempting to connect to lobby `"
                   +:+ code +:+ "` on " +:+ regionText E region +:+ "...";
    footer := None |}).

Definition newSession (E : Env) (msg : Message) (region : LobbyRegion) (code : string)
           (w : World) : AmongUsSession :=
  mkSession (nextPk w) (msg_guild msg) (msg_channel msg) (snowflake E (minted w))
            (author_username msg) LOBBY region code [].

Definition apology (msg : Message) (e : Thrown) : Call :=
  createMessage (msg_channel msg)
    (Text ("<@!" +:+ author_id msg +:+ ">, sorry but something went wrong: "
           +:+ toString e)).

(** A session in another state. *)
Definition with_state (s : AmongUsSession) (st : SessionState) : AmongUsSession :=
  mkSession (pk s) (guild s) (channel s) (message s) (user s) st
            (region s) (lobbyCode s) (channels s).

(** An environment in which the platform rejects every embedded message
    (the bot may not send embeds in the channel) and accepts everything
    else. *)
Definition plainEnv : Env := {|
  rejects := fun c => match c with createMessage _ (Embedded _) => true | _ => false end;
  snowflake := snowflake calmEnv;
  isMemberAdmin := isMemberAdmin calmEnv;
  regionText := regionText calmEnv;
  botUsername := botUsername calmEnv;
|}.

(** [lingering] without its category channel. *)
Definition lingeringFlat : AmongUsSession :=
  set_channels lingering
    [ mkSessionChannel "talking" TALKING (Some "invite");
      mkSessionChannel "silence" SILENCE None ].

(** An environment in which the platform rejects moving [admin-ann] to the
    channel [room] (she has left voice); everything else is accepted. *)
Definition absentEnv : Env := {|
  rejects := fun c => bool_decide (c = move "guild" "room" "admin-ann");
  snowflake := snowflake calmEnv;
  isMemberAdmin := isMemberAdmin calmEnv;
  regionText := regionText calmEnv;
  botUsername := botUsername calmEnv;
|}.

(** [lingering] with two admin channels left over from earlier rounds. *)
Definition lingeringWithRooms : AmongUsSession :=
  set_channels lingering
    (channels lingering ++ [ mkSessionChannel "room" ADMIN_SILENCE None;
                             mkSessionChannel "den" ADMIN_SILENCE None ]).

(** A world in which [lingeringWithRooms] is persisted and the index lists
    the given members in its talking channel and [admin-zed] in [room]. *)
Definition crowdedWorld (talking : list string) : World :=
  mkWorld (<["talking" := talking]> (<["room" := ["admin-zed"]]> ∅))
          [lingeringWithRooms] [] 0 0.

(** The index lists nobody under the identifiers the platform mints from
    [n] on: the channels they will name do not exist yet. *)
Definition vacantFrom (E : Env) (n : nat) (w : World) : Prop :=
  forall i, (n <= i)%nat -> getMembersInChannel w (snowflake E i) = [].

(** The switch events by which the platform reports that the moves of a
    log have been carried out, each of them out of the channel [old]. *)
Definition switchesOf (guildID old : string) (cs : list Call) : list VoiceEvent :=
  map (fun p => voiceChannelSwitch (mkMember (fst p) guildID) (snd p) old) (movesOf cs).

(** The steps of the startup routine, in the order of the source. *)
Definition startupSteps (E : Env) : list Call :=
  [ consoleLog "[+] Starting impostor..."; connectToDatabase;
    consoleLog "[+] Connected to database!"; connect; onceReady;
    consoleLog ("[+] Connected to Discord as " +:+ botUsername E) ].

(** Of calls awaited one after the other, the ones that are issued: every
    call up to and including the first one that is rejected. *)
Fixpoint attempted (E : Env) (cs : list Call) : list Call :=
  match cs with
  | [] => []
  | c :: rest => c :: (if rejects E c then [] else attempted E rest)
  end.

(** ** Strings *)

Section Strings.

Lemma substring_takeS (m : nat) (s : string) : String.substring 0 m s = takeS m s.
Proof.
  revert s; induction m as [|m IH]; intros [|c r]; simpl; try reflexivity.
  now rewrite IH.
Qed.

Lemma dropS_all (n : nat) (s : string) :
  (String.length s <= n)%nat -> dropS n s = EmptyString.
Proof.
  revert s; induction n as [|n IH]; intros [|c r]; simpl; intros H;
    try reflexivity; try lia.
  apply IH; lia.
Qed.

Lemma substring_dropS (n m : nat) (s : string) :
  (String.length s - n <= m)%nat -> String.substring n m s = dropS n s.
Proof.
  revert m s; induction n as [|n IH]; intros m s H.
  - simpl. revert s H; induction m as [|m IHm]; intros [|c r]; simpl; intros H;
      try reflexivity; try lia.
    f_equal. apply IHm. simpl in H. lia.
  - destruct s as [|c r]; simpl; [reflexivity|]. apply IH. simpl in H. lia.
Qed.

Lemma takeS_all (n : nat) (s : string) :
  (String.length s <= n)%nat -> takeS n s = s.
Proof.
  revert s; induction n as [|n IH]; intros [|c r]; simpl; intros H;
    try reflexivity; try lia.
  f_equal. apply IH. lia.
Qed.

Lemma takeS_min (n : nat) (s : string) :
  takeS (Nat.min n (String.length s)) s = takeS n s.
Proof.
  revert s; induction n as [|n IH]; intros [|c r]; simpl; try reflexivity.
  now rewrite IH.
Qed.

Lemma slice_from (s p : string) :
  JS.slice s (JS.length p) None = dropS (String.length p) s.
Proof.
  unfold JS.slice, JS.relative, JS.length.
  set (n := String.length p). set (L := String.length s).
  destruct (Z.ltb_spec (Z.of_nat n) 0) as [H|_]; [lia|].
  destruct (Nat.le_gt_cases n L) as [Hle|Hgt].
  - rewrite Z.min_l by lia. rewrite Nat2Z.id.
    apply substring_dropS. subst L. lia.
  - rewrite Z.min_r by lia. rewrite Nat2Z.id.
    rewrite (dropS_all n) by (subst L; lia).
    rewrite substring_dropS by lia. apply dropS_all. subst L; lia.
Qed.

Lemma slice_to_indexOf (s : string) :
  JS.slice s 0 (Some (JS.indexOf s " ")) = nextWordS s.
Proof.
  unfold JS.slice, JS.indexOf, nextWordS, JS.relative, JS.length.
  set (L := String.length s).
  replace (0 <? 0) with false by reflexivity.
  rewrite Z.min_l by lia. rewrite Z.sub_0_r. simpl Z.to_nat.
  destruct (String.index 0 " " s) as [i|].
  - destruct (Z.ltb_spec (Z.of_nat i) 0) as [H|_]; [lia|].
    rewrite substring_takeS.
    replace (Z.to_nat (Z.max (Z.min (Z.of_nat i) (Z.of_nat L)) 0))
      with (Nat.min i L) by lia.
    apply takeS_min.
  - replace (-1 <? 0) with true by reflexivity.
    rewrite substring_takeS. f_equal. lia.
Qed.

End Strings.

(** ** The command parser *)

Section ParserFacts.

Lemma length_toUpperCase (s : string) :
  String.length (JS.toUpperCase s) = String.length s.
Proof. induction s as [|c r IH]; simpl; [reflexivity | now rewrite IH]. Qed.

Lemma some_outside_alphabet (s : string) :
  JS.some (fun x => negb (JS.includes V2 x)) (JS.spread (JS.toUpperCase s))
  = negb (codeChars s).
Proof.
  unfold JS.some, codeChars.
  induction s as [|c r IH]; [reflexivity|].
  cbn [JS.toUpperCase JS.spread existsb chars forallb].
  rewrite IH, negb_andb. reflexivity.
Qed.

(** [validateLobbyCode] decided on the trimmed code. *)
Lemma validateLobbyCode_spec (code : string) :
  validateLobbyCode code =
    if negb (Nat.eqb (String.length (JS.trim code)) 6) then Throw (Str INVALID_LENGTH)
    else if negb (codeChars (JS.trim code)) then Throw (Str INVALID_CHARACTERS)
    else Return (JS.toUpperCase (JS.trim code)).
Proof.
  unfold validateLobbyCode. cbv zeta.
  rewrite some_outside_alphabet. unfold JS.length.
  rewrite length_toUpperCase.
  replace (Z.of_nat (String.length (JS.trim code)) =? 6)
    with (Nat.eqb (String.length (JS.trim code)) 6); [reflexivity|].
  destruct (Nat.eqb_spec (String.length (JS.trim code)) 6) as [->|H]; symmetry.
  - reflexivity.
  - apply Z.eqb_neq. lia.
Qed.

Lemma trimStart_trimEnd (s : string) :
  JS.trimStart (JS.trimEnd s) = JS.trimEnd (JS.trimStart s).
Proof.
  induction s as [|c r IH]; [reflexivity|].
  cbn [JS.trimStart JS.trimEnd].
  destruct (JS.isWhiteSpace c) eqn:Hc.
  - rewrite <- IH. destruct (JS.trimEnd r) as [|c' r'] eqn:Hr; [reflexivity|].
    cbn [JS.trimStart]. now rewrite Hc.
  - cbn [JS.trimEnd]. destruct (JS.trimEnd r) as [|c' r'];
      cbn [JS.trimStart]; now rewrite Hc.
Qed.

Lemma trimEnd_idempotent (s : string) : JS.trimEnd (JS.trimEnd s) = JS.trimEnd s.
Proof.
  induction s as [|c r IH]; [reflexivity|].
  cbn [JS.trimEnd]. destruct (JS.trimEnd r) as [|c' r'] eqn:Hr.
  - destruct (JS.isWhiteSpace c) eqn:Hc; [reflexivity|].
    cbn [JS.trimEnd]. now rewrite Hc.
  - change (JS.trimEnd (String c (String c' r'))) with
      (match JS.trimEnd (String c' r') with
       | EmptyString => if JS.isWhiteSpace c then EmptyString else String c EmptyString
       | String a b => String c (String a b)
       end).
    now rewrite IH.
Qed.

Lemma trim_trimEnd (s : string) : JS.trim (JS.trimEnd s) = JS.trim s.
Proof.
  unfold JS.trim. now rewrite trimStart_trimEnd, trimEnd_idempotent.
Qed.

Lemma trim_leading_space (s : string) : JS.trim (String " " s) = JS.trim s.
Proof. reflexivity. Qed.

Lemma codeChar_not_whiteSpace (c : ascii) :
  isCodeChar c = true -> JS.isWhiteSpace c = false.
Proof.
  destruct c as [[] [] [] [] [] [] [] []]; vm_compute; intros H;
    first [reflexivity | discriminate H].
Qed.

Lemma trimEnd_code (s : string) : codeChars s = true -> JS.trimEnd s = s.
Proof.
  unfold codeChars. induction s as [|c r IH]; [reflexivity|].
  cbn [chars forallb]. intros [Hc Hr]%andb_prop.
  cbn [JS.trimEnd]. rewrite (IH Hr).
  destruct r; [|reflexivity]. now rewrite (codeChar_not_whiteSpace c Hc).
Qed.

Lemma trim_code (s : string) : codeChars s = true -> JS.trim s = s.
Proof.
  intros H. unfold JS.trim.
  destruct s as [|c r]; [reflexivity|].
  cbn [JS.trimStart].
  assert (Hc : isCodeChar c = true).
  { unfold codeChars in H. cbn in H. now apply andb_prop in H as [H _]. }
  rewrite (codeChar_not_whiteSpace c Hc). now apply trimEnd_code.
Qed.

Lemma validated_leading_space (r : LobbyRegion) (rest : string) :
  validated r (String " " rest) = validated r rest.
Proof. unfold validated. now rewrite !validateLobbyCode_spec, trim_leading_space. Qed.

End ParserFacts.

Section ParserEvaluation.

Lemma prefix_empty (s : string) : String.prefix "" s = true.
Proof. destruct s; reflexivity. Qed.

Lemma index_space_here (s : string) :
  String.index 0 " " (String " " s) = Some 0%nat.
Proof.
  cbn [String.index].
  replace (String.prefix " " (String " " s)) with true; [reflexivity|].
  symmetry. change (String.prefix " " (String " " s)) with (String.prefix "" s).
  apply prefix_empty.
Qed.

Lemma index_space_later (c : ascii) (s : string) :
  c <> " "%char ->
  String.index 0 " " (String c s) =
    match String.index 0 " " s with Some n => Some (S n) | None => None end.
Proof.
  intros Hc. cbn [String.index].
  replace (String.prefix " " (String c s)) with false; [reflexivity|].
  symmetry. cbn [String.prefix].
  destruct (ascii_dec " " c) as [e|_]; [congruence | reflexivity].
Qed.

Lemma trimEnd_cons (c : ascii) (s : string) :
  JS.isWhiteSpace c = false -> JS.trimEnd (String c s) = String c (JS.trimEnd s).
Proof.
  intros Hc. cbn [JS.trimEnd]. rewrite Hc. now destruct (JS.trimEnd s).
Qed.

Lemma trim_blank (s : string) : JS.trimEnd s = EmptyString -> JS.trim s = EmptyString.
Proof.
  intros H. unfold JS.trim. now rewrite <- trimStart_trimEnd, H.
Qed.

End ParserEvaluation.

(** Evaluates [nextWordS] on a string that starts with a concrete word and a
    space. *)
Ltac next_word :=
  unfold nextWordS;
  rewrite ?index_space_later by (intro; discriminate);
  rewrite index_space_here; cbn [takeS].

(** Decides the comparisons between string literals in the goal. *)
Ltac eqb_literals :=
  repeat match goal with
  | |- context [String.eqb ?a ?b] =>
      let v := eval cbv in (String.eqb a b) in
      match v with true => idtac | false => idtac end;
      change (String.eqb a b) with v
  end;
  cbn [orb]; cbv beta iota.

(** Runs the parser on [commandLine token rest] up to the point where it
    depends on [rest]. *)
Ltac parse_head :=
  cbv [commandLine COMMAND_PREFIX String.append];
  unfold parseCommandInvocation; cbv zeta;
  rewrite slice_from; unfold COMMAND_PREFIX; cbn [dropS String.length];
  rewrite slice_to_indexOf; next_word;
  eqb_literals;
  rewrite ?slice_from; cbn [dropS String.length].

Ltac parse_token r :=
  parse_head;
  match goal with
  | |- context [validateLobbyCode (String " "%char ?rest)] =>
      fold (validated r (String " "%char rest)); apply validated_leading_space
  end.

Section ParserTokens.

Variable rest : string.

Lemma parse_as : parseCommandInvocation (commandLine "as" rest) = validated ASIA rest.
Proof. parse_token ASIA. Qed.

Lemma parse_asia : parseCommandInvocation (commandLine "asia" rest) = validated ASIA rest.
Proof. parse_token ASIA. Qed.

Lemma parse_eu : parseCommandInvocation (commandLine "eu" rest) = validated EUROPE rest.
Proof. parse_token EUROPE. Qed.

Lemma parse_europe :
  parseCommandInvocation (commandLine "europe" rest) = validated EUROPE rest.
Proof. parse_token EUROPE. Qed.

Lemma parse_us :
  parseCommandInvocation (commandLine "us" rest) = validated NORTH_AMERICA rest.
Proof. parse_token NORTH_AMERICA. Qed.

Lemma parse_usa :
  parseCommandInvocation (commandLine "usa" rest) = validated NORTH_AMERICA rest.
Proof. parse_token NORTH_AMERICA. Qed.

Lemma parse_na :
  parseCommandInvocation (commandLine "na" rest) = validated NORTH_AMERICA rest.
Proof. parse_token NORTH_AMERICA. Qed.

Lemma parse_america :
  parseCommandInvocation (commandLine "america" rest) = validated NORTH_AMERICA rest.
Proof. parse_token NORTH_AMERICA. Qed.

Lemma parse_north_america :
  parseCommandInvocation (commandLine "north america" rest) =
    match JS.trimEnd rest with
    | EmptyString => Throw (Str NO_REGION)
    | _ => validated NORTH_AMERICA rest
    end.
Proof.
  parse_head.
  rewrite trim_leading_space. unfold JS.trim. cbn [JS.trimStart].
  change (JS.isWhiteSpace "a") with false. cbv iota.
  rewrite !trimEnd_cons by reflexivity.
  cbn [JS.trimEnd]. change (JS.isWhiteSpace " ") with true. cbv iota.
  destruct (JS.trimEnd rest) as [|c r] eqn:Hrest.
  - reflexivity.
  - rewrite slice_to_indexOf. next_word. eqb_literals.
    cbn [dropS String.length].
    fold (validated NORTH_AMERICA (String " " (String c r))).
    rewrite validated_leading_space, <- Hrest.
    unfold validated. now rewrite !validateLobbyCode_spec, trim_trimEnd.
Qed.

End ParserTokens.

Section ParserClaims.

Lemma validated_good (r : LobbyRegion) (code : string) :
  String.length code = 6%nat -> codeChars code = true ->
  validated r code = Return (r, JS.toUpperCase code).
Proof.
  intros Hlen Hcode. unfold validated.
  rewrite validateLobbyCode_spec, (trim_code code Hcode), Hlen, Hcode.
  reflexivity.
Qed.

Lemma validated_bad (r : LobbyRegion) (code : string) :
  String.length (JS.trim code) <> 6%nat \/ codeChars (JS.trim code) = false ->
  exists e, validated r code = Throw (Str e).
Proof.
  intros H. unfold validated. rewrite validateLobbyCode_spec.
  destruct (Nat.eqb_spec (String.length (JS.trim code)) 6) as [Hlen|Hlen]; cbn [negb].
  - destruct H as [H|H]; [contradiction|]. rewrite H. cbn [negb]. eauto.
  - eauto.
Qed.

(** On a command line whose token is in the vocabulary, the parser
    validates what follows the token; the two-word token needs something
    other than white space to follow. *)
Lemma parse_vocabulary (token : string) (r : LobbyRegion) (rest : string) :
  (token, r) ∈ REGION_VOCABULARY ->
  parseCommandInvocation (commandLine token rest) = validated r rest \/
  (JS.trimEnd rest = EmptyString /\
   parseCommandInvocation (commandLine token rest) = Throw (Str NO_REGION)).
Proof.
  unfold REGION_VOCABULARY. intros H.
  repeat (apply elem_of_cons in H as [H|H];
          [injection H as -> ->|]); [..|now apply elem_of_nil in H].
  - left; apply parse_eu.
  - left; apply parse_europe.
  - left; apply parse_na.
  - left; apply parse_us.
  - left; apply parse_usa.
  - left; apply parse_america.
  - rewrite parse_north_america.
    destruct (JS.trimEnd rest) eqn:Hrest; [right; split; reflexivity | now left].
  - left; apply parse_as.
  - left; apply parse_asia.
Qed.

Lemma startsWith_commandLine (token code : string) :
  JS.startsWith (commandLine token code) COMMAND_PREFIX = true.
Proof.
  unfold JS.startsWith. cbv [commandLine COMMAND_PREFIX String.append].
  cbn [String.prefix]. repeat (destruct (ascii_dec _ _); [|congruence]).
  apply prefix_empty.
Qed.

(** A command that does not parse is answered with the text thrown, and
    nothing else happens: no session is persisted and the session runner is
    not started. *)
Lemma onMessageCreated_rejected (E : Env) (msg : Message) (w : World) (e : Thrown) :
  JS.startsWith (content msg) COMMAND_PREFIX = true ->
  author_bot msg = false ->
  msg_channel_is_text msg = true ->
  parseCommandInvocation (content msg) = Throw e ->
  store (exec (onMessageCreated E msg) w) = store w /\
  issued (onMessageCreated E msg) w =
    [createMessage (msg_channel msg)
       (Text ("<@!" +:+ author_id msg +:+ ">, sorry but something went wrong: "
              +:+ toString e))].
Proof.
  intros Hp Hb Ht He.
  unfold issued, exec, onMessageCreated. rewrite Hp, Hb, Ht. cbn [negb orb].
  unfold try_catch, bind at 1. rewrite He.
  unfold swallow, try_catch, bind, performId, ret.
  destruct (rejects E _); cbn [snd fst store calls record_call mint];
    rewrite drop_app_length; split; reflexivity.
Qed.

End ParserClaims.

(** C1 (as stated, refuted): the region token is compared with the
    lower-case spellings only. [EU] matches the vocabulary entry [eu] up to
    case and [ABCDEF] is a code over the alphabet, yet parsing throws. *)
Lemma C1_token_case_sensitive :
  (toLowerCase "EU", EUROPE) ∈ REGION_VOCABULARY /\
  String.length "ABCDEF" = 6%nat /\ codeChars "ABCDEF" = true /\
  parseCommandInvocation (commandLine "EU" "ABCDEF") = Throw (Str NO_REGION).
Proof.
  split; [|repeat split; reflexivity].
  change (toLowerCase "EU") with "eu". unfold REGION_VOCABULARY. apply list_elem_of_here.
Qed.

(** C1 (amended): for a region token spelled as in the vocabulary (lower
    case) and an ASCII code, a 6-character code whose characters are in the
    alphabet up to case parses to the region and the upper-cased code; a code
    whose trimmed form has another length or a character outside the
    alphabet makes the parser throw a text, which the message listener sends
    back, creating no session. *)
Theorem C1_parse_command (token : string) (r : LobbyRegion) (code : string) :
  (token, r) ∈ REGION_VOCABULARY ->
  asciiOnly code = true ->
  (String.length code = 6%nat -> codeChars code = true ->
   parseCommandInvocation (commandLine token code) = Return (r, JS.toUpperCase code))
  /\
  (String.length (JS.trim code) <> 6%nat \/ codeChars (JS.trim code) = false ->
   exists e,
     parseCommandInvocation (commandLine token code) = Throw (Str e) /\
     forall (E : Env) (msg : Message) (w : World),
       content msg = commandLine token code ->
       author_bot msg = false ->
       msg_channel_is_text msg = true ->
       store (exec (onMessageCreated E msg) w) = store w /\
       issued (onMessageCreated E msg) w =
         [createMessage (msg_channel msg)
            (Text ("<@!" +:+ author_id msg +:+ ">, sorry but something went wrong: " +:+ e))]).
Proof.
  intros Htoken _. split.
  - intros Hlen Hcode.
    destruct (parse_vocabulary token r code Htoken) as [->|[Hblank _]].
    + now apply validated_good.
    + rewrite (trimEnd_code code Hcode) in Hblank. now subst code.
  - intros Hbad.
    assert (Hthrow : exists e, parseCommandInvocation (commandLine token code) = Throw (Str e)).
    { destruct (parse_vocabulary token r code Htoken) as [->|[_ ->]].
      - now apply validated_bad.
      - eauto. }
    destruct Hthrow as [e He]. exists e. split; [exact He|].
    intros E msg w Hcontent Hbot Htext.
    apply (onMessageCreated_rejected E msg w (Str e)); try assumption.
    + rewrite Hcontent. apply startsWith_commandLine.
    + now rewrite Hcontent.
Qed.

Lemma C1_parse_command_witness :
  parseCommandInvocation (commandLine "north america" "qwerty")
  = Return (NORTH_AMERICA, "QWERTY") /\
  exists e, parseCommandInvocation (commandLine "eu" "ABCDE1") = Throw (Str e).
Proof.
  split.
  - apply (C1_parse_command "north america" NORTH_AMERICA "qwerty");
      [ unfold REGION_VOCABULARY; do 6 apply list_elem_of_further; apply list_elem_of_here
      | reflexivity | reflexivity | reflexivity ].
  - destruct (C1_parse_command "eu" EUROPE "ABCDE1") as [_ H];
      [ unfold REGION_VOCABULARY; apply list_elem_of_here | reflexivity |].
    destruct H as [e [He _]]; [right; reflexivity|].
    exists e. exact He.
Defined.

(** ** The membership index *)

Section MembershipIndex.

Context (E : Env).

Lemma index_onVoiceJoin (m : Member) (c : string) (w : World) :
  VOICE_CHANNEL_USERS (exec (onVoiceJoin E m c) w) =
    <[c := getMembersInChannel w c ++ [member_id m]]> (VOICE_CHANNEL_USERS w).
Proof.
  unfold exec, onVoiceJoin, bind, ret, set_index. cbn [fst snd store].
  destruct (findOneTalking _ c) as [[x s]|]; [|reflexivity].
  destruct (bool_decide (state s = PLAYING)); [|reflexivity].
  destruct (JS.find _ (channels s)) as [sc|]; [|reflexivity].
  unfold channelIdOf, ret, perform.
  now destruct (rejects E _).
Qed.

Lemma members_onVoiceJoin (m : Member) (c c' : string) (w : World) :
  getMembersInChannel (exec (onVoiceJoin E m c) w) c' =
    if decide (c = c') then getMembersInChannel w c ++ [member_id m]
    else getMembersInChannel w c'.
Proof.
  unfold getMembersInChannel at 1. rewrite index_onVoiceJoin, lookup_insert.
  now destruct (decide (c = c')).
Qed.

Lemma members_onVoiceLeave (m : Member) (c c' : string) (w : World) :
  getMembersInChannel (exec (onVoiceLeave m c) w) c' =
    if decide (c = c') then
      let users := getMembersInChannel w c in
      let idx := JS.indexOfList users (member_id m) in
      if idx =? -1 then users else JS.splice1 users idx
    else getMembersInChannel w c'.
Proof.
  unfold exec, onVoiceLeave, getMembersInChannel. cbv zeta.
  destruct (VOICE_CHANNEL_USERS w !! c) as [users|] eqn:Hc; cbn [default].
  - destruct (JS.indexOfList users (member_id m) =? -1) eqn:Hidx;
      cbn [snd VOICE_CHANNEL_USERS set_index];
      destruct (decide (c = c')) as [<-|Hne];
      rewrite ?Hc, ?lookup_insert_eq, ?lookup_insert_ne by assumption;
      cbn [default from_option id]; rewrite ?Hidx; reflexivity.
  - cbn [snd]. destruct (decide (c = c')) as [<-|]; [now rewrite Hc | reflexivity].
Qed.

Lemma result_onVoiceLeave (m : Member) (c : string) (w : World) :
  result (onVoiceLeave m c) w = Return tt.
Proof.
  unfold result, onVoiceLeave.
  destruct (VOICE_CHANNEL_USERS w !! c); [|reflexivity].
  now destruct (_ =? -1).
Qed.

Lemma exec_onVoiceChange (m : Member) (new old : string) (w : World) :
  exec (onVoiceChange E m new old) w =
    exec (onVoiceJoin E m new) (exec (onVoiceLeave m old) w).
Proof.
  unfold onVoiceChange, exec, bind at 1.
  pose proof (result_onVoiceLeave m old w) as H. unfold result in H.
  destruct (onVoiceLeave m old w) as [r w']. cbn [fst] in H. now subst r.
Qed.

Lemma duplicateFree_onVoiceLeave (m : Member) (c : string) (w : World) :
  duplicateFree w -> duplicateFree (exec (onVoiceLeave m c) w).
Proof.
  intros Hw c'. rewrite members_onVoiceLeave.
  destruct (decide (c = c')); [|apply Hw]. cbv zeta.
  destruct (_ =? -1); [apply Hw|].
  unfold JS.splice1. eapply sublist_NoDup; [apply Hw | apply sublist_delete].
Qed.

Lemma duplicateFree_onVoiceJoin (m : Member) (c : string) (w : World) :
  duplicateFree w -> member_id m ∉ getMembersInChannel w c ->
  duplicateFree (exec (onVoiceJoin E m c) w).
Proof.
  intros Hw Hm c'. rewrite members_onVoiceJoin.
  destruct (decide (c = c')); [|apply Hw].
  apply NoDup_app. split; [apply Hw|]. split; [|apply NoDup_singleton].
  intros x Hx ->%list_elem_of_singleton. contradiction.
Qed.

Lemma duplicateFree_handle (ev : VoiceEvent) (w : World) :
  duplicateFree w -> admissible w ev -> duplicateFree (exec (handle E ev) w).
Proof.
  destruct ev as [m c|m c|m new old]; cbn [handle admissible]; intros Hw Hev.
  - now apply duplicateFree_onVoiceJoin.
  - now apply duplicateFree_onVoiceLeave.
  - rewrite exec_onVoiceChange.
    apply duplicateFree_onVoiceJoin; [|exact Hev].
    now apply duplicateFree_onVoiceLeave.
Qed.

End MembershipIndex.

(** C2 (as stated, refuted): the join listener appends without looking;
    two join events for the same member and channel leave the member twice
    in the channel's entry. *)
Lemma C2_join_twice_duplicates :
  let m := mkMember "alice" "guild" in
  let w := replay calmEnv [voiceChannelJoin m "lobby"; voiceChannelJoin m "lobby"] emptyWorld in
  getMembersInChannel w "lobby" = ["alice"; "alice"] /\
  ~ NoDup (getMembersInChannel w "lobby").
Proof.
  cbv zeta. assert (H : getMembersInChannel
    (replay calmEnv [voiceChannelJoin (mkMember "alice" "guild") "lobby";
                     voiceChannelJoin (mkMember "alice" "guild") "lobby"] emptyWorld)
    "lobby" = ["alice"; "alice"]) by (vm_compute; reflexivity).
  split; [exact H|]. rewrite H. intros Hnd.
  apply NoDup_cons in Hnd as [Hnotin _]. apply Hnotin, list_elem_of_here.
Qed.

(** C2 (amended): the join listener appends the member to the channel's
    entry whether or not it is there; the entries stay free of duplicates
    along every sequence of join, leave and switch events in which no event
    brings a member into a channel whose entry already lists it. *)
Theorem C2_index_duplicate_free (E : Env) (w : World) (evs : list VoiceEvent) :
  duplicateFree w ->
  admissibleRun E w evs ->
  (forall (m : Member) (c : string),
     getMembersInChannel (exec (onVoiceJoin E m c) w) c
     = getMembersInChannel w c ++ [member_id m]) /\
  duplicateFree (replay E evs w).
Proof.
  intros Hw Hrun. split.
  - intros m c. rewrite members_onVoiceJoin. now destruct (decide (c = c)).
  - revert w Hw Hrun. induction evs as [|ev rest IH]; intros w Hw Hrun; [exact Hw|].
    destruct Hrun as [Hev Hrest]. cbn [replay].
    apply IH; [|exact Hrest]. now apply duplicateFree_handle.
Qed.

Lemma C2_index_duplicate_free_witness :
  let m := mkMember "alice" "guild" in
  duplicateFree
    (replay calmEnv [voiceChannelJoin m "lobby"; voiceChannelSwitch m "silence" "lobby";
                     voiceChannelLeave m "silence"; voiceChannelJoin m "lobby"] emptyWorld).
Proof.
  cbv zeta. apply C2_index_duplicate_free.
  - intros c. unfold getMembersInChannel, emptyWorld. cbn [VOICE_CHANNEL_USERS].
    rewrite lookup_empty. apply NoDup_nil_2.
  - cbn [admissibleRun admissible].
    repeat split; vm_compute; intros H; inversion H;
      repeat match goal with
             | H : _ ∈ _ |- _ => inversion H; clear H; subst
             end.
Defined.

(** ** Calls and their outcomes *)

Section Calls.

Context (E : Env).

Lemma log_calls_nil (w : World) : log_calls w [] = w.
Proof. destruct w. unfold log_calls. cbn. now rewrite app_nil_r. Qed.

Lemma log_calls_app (w : World) (cs ds : list Call) :
  log_calls (log_calls w cs) ds = log_calls w (cs ++ ds).
Proof. unfold log_calls. cbn. now rewrite app_assoc. Qed.

Lemma record_call_log (w : World) (c : Call) : record_call w c = log_calls w [c].
Proof. reflexivity. Qed.

Lemma issued_log {A} (m : M A) (w : World) (r : Completion A) (cs : list Call) (w' : World) :
  m w = (r, w') -> calls w' = calls w ++ cs -> issued m w = cs.
Proof.
  intros Hm Hcalls. unfold issued, exec. rewrite Hm. cbn [snd].
  rewrite Hcalls. apply drop_app_length.
Qed.

Lemma outcome_app (cs ds : list Call) :
  outcome E (cs ++ ds) =
    match outcome E cs with
    | Throw e => Throw e
    | Return _ => outcome E ds
    end.
Proof.
  unfold outcome. induction cs as [|c cs IH]; [reflexivity|].
  cbn [app List.find]. destruct (rejects E c); [reflexivity | exact IH].
Qed.

Lemma outcome_accepted (cs : list Call) :
  (forall c, c ∈ cs -> rejects E c = false) -> outcome E cs = Return tt.
Proof.
  unfold outcome. induction cs as [|c cs IH]; intros H; [reflexivity|].
  cbn [List.find]. rewrite (H c) by apply list_elem_of_here.
  apply IH. intros c' Hc'. apply H. now apply list_elem_of_further.
Qed.

Lemma outcome_rejected (cs : list Call) (c : Call) :
  c ∈ cs -> rejects E c = true ->
  exists c', c' ∈ cs /\ rejects E c' = true /\ outcome E cs = Throw (Rejected c').
Proof.
  unfold outcome. induction cs as [|d cs IH]; intros Hc Hr.
  - now apply elem_of_nil in Hc.
  - cbn [List.find]. destruct (rejects E d) eqn:Hd.
    + exists d. split; [apply list_elem_of_here | now split].
    + apply elem_of_cons in Hc as [->|Hc]; [congruence|].
      destruct (IH Hc Hr) as (c' & Hin & Hrej & Hout).
      exists c'. split; [now apply list_elem_of_further | now split].
Qed.

(** A batch of calls awaited with [Promise.all]: all of them are issued,
    whatever their outcomes. *)
Lemma all_perform (cs : list Call) (w : World) :
  all (map (perform E) cs) w = (outcome E cs, log_calls w cs).
Proof.
  revert w. induction cs as [|c cs IH]; intros w.
  - cbn. now rewrite log_calls_nil.
  - cbn [map all]. unfold perform at 1. rewrite IH, record_call_log, log_calls_app.
    unfold outcome. cbn [app List.find]. now destruct (rejects E c).
Qed.

(** Calls awaited one after the other: the first rejection stops the
    loop. *)
Lemma forOf_perform {A} (f : A -> Call) (xs : list A) (w : World) :
  (forall x, x ∈ xs -> rejects E (f x) = false) ->
  forOf xs (fun x => perform E (f x)) w = (Return tt, log_calls w (map f xs)).
Proof.
  revert w. induction xs as [|x xs IH]; intros w H.
  - cbn. now rewrite log_calls_nil.
  - cbn [forOf map]. unfold bind, perform at 1.
    rewrite (H x) by apply list_elem_of_here.
    rewrite IH by (intros y Hy; apply H; now apply list_elem_of_further).
    now rewrite record_call_log, log_calls_app.
Qed.

Lemma forOf_perform_rejected {A} (f : A -> Call) (pre : list A) (x : A)
      (post : list A) (w : World) :
  (forall y, y ∈ pre -> rejects E (f y) = false) ->
  rejects E (f x) = true ->
  forOf (pre ++ x :: post) (fun x => perform E (f x)) w
  = (Throw (Rejected (f x)), log_calls w (map f pre ++ [f x])).
Proof.
  revert w. induction pre as [|y pre IH]; intros w Hpre Hx.
  - cbn [app forOf map]. unfold bind, perform. now rewrite Hx.
  - cbn [app forOf map]. unfold bind, perform at 1.
    rewrite (Hpre y) by apply list_elem_of_here.
    rewrite IH by (try assumption; intros z Hz; apply Hpre; now apply list_elem_of_further).
    now rewrite record_call_log, log_calls_app.
Qed.

Lemma forOf_perform_store {A} (f : A -> Call) (xs : list A) (w : World) :
  store (exec (forOf xs (fun x => perform E (f x))) w) = store w.
Proof.
  unfold exec. revert w. induction xs as [|x xs IH]; intros w; [reflexivity|].
  cbn [forOf]. unfold bind, perform at 1.
  destruct (rejects E (f x)); [reflexivity|]. now rewrite IH.
Qed.

End Calls.

(** ** Cleaning up sessions *)

Section Cleanup.

Context (E : Env).

Lemma cleanUpSession_unfold (s : AmongUsSession) :
  cleanUpSession E s =
    bind (forOf (channels s) (fun x => perform E (deletion x)))
         (fun _ => bind (perform E (staleEdit s)) (fun _ => removeAndFlush s)).
Proof. reflexivity. Qed.

Lemma cleanUpSession_accepted (s : AmongUsSession) (w : World) :
  (forall c, c ∈ channels s -> rejects E (deletion c) = false) ->
  rejects E (staleEdit s) = false ->
  cleanUpSession E s w =
    (Return tt,
     set_store (log_calls w (deletions s ++ [staleEdit s])) (without s (store w))).
Proof.
  intros Hdel Hedit. rewrite cleanUpSession_unfold. unfold bind at 1.
  rewrite (forOf_perform E deletion) by exact Hdel.
  unfold bind, perform. rewrite Hedit.
  unfold removeAndFlush. rewrite record_call_log, log_calls_app. reflexivity.
Qed.

Lemma cleanUpSession_rejected (s : AmongUsSession) (w : World)
      (pre : list SessionChannel) (c : SessionChannel) (post : list SessionChannel) :
  channels s = pre ++ c :: post ->
  (forall x, x ∈ pre -> rejects E (deletion x) = false) ->
  rejects E (deletion c) = true ->
  cleanUpSession E s w =
    (Throw (Rejected (deletion c)), log_calls w (map deletion pre ++ [deletion c])).
Proof.
  intros Hs Hpre Hc. rewrite cleanUpSession_unfold. unfold bind at 1. rewrite Hs.
  now rewrite (forOf_perform_rejected E deletion pre c post w Hpre Hc).
Qed.

Lemma cleanUpSession_thrown (s : AmongUsSession) (w : World) (e : Thrown) :
  result (cleanUpSession E s) w = Throw e ->
  store (exec (cleanUpSession E s) w) = store w.
Proof.
  rewrite cleanUpSession_unfold. unfold result, exec, bind at 1 3.
  pose proof (forOf_perform_store E deletion (channels s) w) as Hstore.
  unfold exec in Hstore.
  destruct (forOf (channels s) _ w) as [[[]|e'] w1]; cbn [snd] in Hstore.
  - unfold bind, perform.
    destruct (rejects E _); cbn [fst snd]; [now intros _ | discriminate].
  - now intros _.
Qed.

Lemma elem_of_without (s x : AmongUsSession) (db : list AmongUsSession) :
  x ∈ without s db <-> x ∈ db /\ pk x <> pk s.
Proof.
  unfold without. rewrite !list_elem_of_In, filter_In, negb_true_iff, Nat.eqb_neq.
  reflexivity.
Qed.

Lemma elem_of_withoutAll (ss db : list AmongUsSession) (x : AmongUsSession) :
  x ∈ withoutAll ss db <-> x ∈ db /\ forall s, s ∈ ss -> pk x <> pk s.
Proof.
  unfold withoutAll. revert db. induction ss as [|s ss IH]; intros db; cbn [fold_left].
  - split; [intros H; split; [exact H|]|now intros [H _]].
    intros s Hs. now apply elem_of_nil in Hs.
  - rewrite IH, elem_of_without. split.
    + intros [[Hx Hs] Hss]. split; [exact Hx|].
      intros s' [->|Hs']%elem_of_cons; [exact Hs | now apply Hss].
    + intros [Hx Hall]. split; [split; [exact Hx|]|].
      * apply Hall, list_elem_of_here.
      * intros s' Hs'. apply Hall. now apply list_elem_of_further.
Qed.

Lemma withoutAll_self (db : list AmongUsSession) : withoutAll db db = [].
Proof.
  apply elem_of_nil_inv. intros x [Hx Hall]%elem_of_withoutAll.
  now apply (Hall x Hx).
Qed.

Lemma cleanUp_each (ss : list AmongUsSession) (w : World) :
  (forall c, rejects E c = false) ->
  forOf ss (cleanUpSession E) w =
    (Return tt,
     set_store (log_calls w (flat_map (fun s => deletions s ++ [staleEdit s]) ss))
               (withoutAll ss (store w))).
Proof.
  intros Hcalm. revert w. induction ss as [|s ss IH]; intros w.
  - cbn. rewrite log_calls_nil. now destruct w.
  - cbn [forOf flat_map]. unfold bind.
    rewrite cleanUpSession_accepted by (intros; apply Hcalm).
    rewrite IH. unfold set_store, log_calls, withoutAll. cbn.
    now rewrite !app_assoc.
Qed.

Lemma stale_edits_count (ss : list AmongUsSession) :
  length (List.filter isEditMessage
            (flat_map (fun s => deletions s ++ [staleEdit s]) ss)) = length ss.
Proof.
  induction ss as [|s ss IH]; [reflexivity|].
  cbn [flat_map]. rewrite List.filter_app, length_app, IH, List.filter_app, length_app.
  replace (List.filter isEditMessage (deletions s)) with (@nil Call).
  - reflexivity.
  - unfold deletions. induction (channels s) as [|c cs IHc]; [reflexivity | exact IHc].
Qed.

End Cleanup.

(** C3 (as stated, refuted): the startup routine of index.ts connects to the
    database and to the platform and does nothing else; a session persisted
    by an earlier run is still in the store afterwards, its channels are not
    deleted and its status message is not rewritten. *)
Lemma C3_startup_leaves_sessions :
  let w := set_store emptyWorld [lingering] in
  result (main calmEnv) w = Return tt /\
  store (exec (main calmEnv) w) = [lingering] /\
  issued (main calmEnv) w =
    [ consoleLog "[+] Starting impostor..."; connectToDatabase;
      consoleLog "[+] Connected to database!"; connect; onceReady;
      consoleLog "[+] Connected to Discord as Impostor" ].
Proof. repeat split; vm_compute; reflexivity. Qed.

(** C3 (amended): when [cleanUpOldSessions] runs and the platform accepts
    every call, each persisted session has its channels deleted and its
    status message rewritten to the stale variant, one rewrite per session,
    and no session record remains. *)
Theorem C3_cleanUpOldSessions (E : Env) (w : World) :
  (forall c, rejects E c = false) ->
  result (cleanUpOldSessions E) w = Return tt /\
  issued (cleanUpOldSessions E) w
    = flat_map (fun s => deletions s ++ [staleEdit s]) (store w) /\
  length (List.filter isEditMessage (issued (cleanUpOldSessions E) w)) = length (store w) /\
  store (exec (cleanUpOldSessions E) w) = [].
Proof.
  intros Hcalm.
  assert (Hrun : cleanUpOldSessions E w =
    (Return tt,
     set_store (log_calls w (flat_map (fun s => deletions s ++ [staleEdit s]) (store w))) [])).
  { unfold cleanUpOldSessions, bind, findAll.
    rewrite (cleanUp_each E (store w) w Hcalm). now rewrite withoutAll_self. }
  assert (Hissued : issued (cleanUpOldSessions E) w
                    = flat_map (fun s => deletions s ++ [staleEdit s]) (store w)).
  { eapply issued_log; [exact Hrun | reflexivity]. }
  unfold result, exec. rewrite Hissued, Hrun. cbn [fst snd].
  repeat split. apply stale_edits_count.
Qed.

Lemma C3_cleanUpOldSessions_witness :
  store (exec (cleanUpOldSessions calmEnv) (set_store emptyWorld [lingering])) = [].
Proof.
  apply (C3_cleanUpOldSessions calmEnv (set_store emptyWorld [lingering])).
  intros c. reflexivity.
Defined.

(** C8 (as stated, refuted): a deletion the platform rejects is not
    swallowed. With the first channel of the session already gone, the
    cleanup throws after that attempt: the other two channels are never
    attempted, the status message is not rewritten and the record stays. *)
Lemma C8_failed_deletion_aborts :
  let w := set_store emptyWorld [lingering] in
  result (cleanUpSession goneEnv lingering) w
    = Throw (Rejected (deleteChannel "category" "Among Us: Session is over.")) /\
  issued (cleanUpSession goneEnv lingering) w
    = [deleteChannel "category" "Among Us: Session is over."] /\
  store (exec (cleanUpSession goneEnv lingering) w) = [lingering].
Proof. repeat split; vm_compute; reflexivity. Qed.

(** C8 (amended): [cleanUpSession] attempts the deletions of the session's
    channels in order, each after the previous one succeeded. When all of
    them and the rewrite of the status message succeed, every channel has
    had its attempt before the record is removed. A rejected deletion is not
    swallowed: it ends the cleanup with that rejection, the later channels
    are not attempted and the record stays in the store; in general the
    record stays whenever the cleanup throws. *)
Theorem C8_cleanUpSession (E : Env) (s : AmongUsSession) (w : World) :
  ((forall c, c ∈ channels s -> rejects E (deletion c) = false) ->
   rejects E (staleEdit s) = false ->
   result (cleanUpSession E s) w = Return tt /\
   issued (cleanUpSession E s) w = deletions s ++ [staleEdit s] /\
   store (exec (cleanUpSession E s) w) = without s (store w))
  /\
  (forall pre c post,
     channels s = pre ++ c :: post ->
     (forall x, x ∈ pre -> rejects E (deletion x) = false) ->
     rejects E (deletion c) = true ->
     result (cleanUpSession E s) w = Throw (Rejected (deletion c)) /\
     issued (cleanUpSession E s) w = map deletion pre ++ [deletion c] /\
     store (exec (cleanUpSession E s) w) = store w)
  /\
  (forall e, result (cleanUpSession E s) w = Throw e ->
             store (exec (cleanUpSession E s) w) = store w).
Proof.
  split; [|split].
  - intros Hdel Hedit.
    pose proof (cleanUpSession_accepted E s w Hdel Hedit) as Hrun.
    unfold result, exec. rewrite (issued_log _ _ _ _ _ Hrun eq_refl), Hrun.
    repeat split.
  - intros pre c post Hs Hpre Hc.
    pose proof (cleanUpSession_rejected E s w pre c post Hs Hpre Hc) as Hrun.
    unfold result, exec. rewrite (issued_log _ _ _ _ _ Hrun eq_refl), Hrun.
    repeat split.
  - apply cleanUpSession_thrown.
Qed.

Lemma C8_cleanUpSession_witness :
  store (exec (cleanUpSession calmEnv lingering) (set_store emptyWorld [lingering])) = [] /\
  store (exec (cleanUpSession goneEnv lingering) (set_store emptyWorld [lingering]))
    = [lingering].
Proof.
  split.
  - destruct (C8_cleanUpSession calmEnv lingering (set_store emptyWorld [lingering]))
      as [H _].
    destruct H as (_ & _ & H); [intros c _; reflexivity | reflexivity |].
    exact H.
  - destruct (C8_cleanUpSession goneEnv lingering (set_store emptyWorld [lingering]))
      as (_ & H & _).
    destruct (H [] (mkSessionChannel "category" CATEGORY None)
                [mkSessionChannel "talking" TALKING (Some "invite");
                 mkSessionChannel "silence" SILENCE None]) as (_ & _ & H').
    + reflexivity.
    + intros x Hx. now apply elem_of_nil in Hx.
    + reflexivity.
    + exact H'.
Defined.

(** ** The reconcilers *)

Section Reconcilers.

Context (E : Env).

Lemma advance_advance (w : World) (cs ds : list Call) (i j : nat) :
  advance (advance w cs i) ds j = advance w (cs ++ ds) (j + i).
Proof. unfold advance. cbn. f_equal; [now rewrite app_assoc | lia]. Qed.

Lemma log_calls_advance (w : World) (cs : list Call) : log_calls w cs = advance w cs 0.
Proof. reflexivity. Qed.

Lemma all_perform_map {A} (f : A -> Call) (xs : list A) (w : World) :
  all (map (fun x => perform E (f x)) xs) w
  = (outcome E (map f xs), log_calls w (map f xs)).
Proof. rewrite <- (all_perform E (map f xs) w), map_map. reflexivity. Qed.

Lemma moveAllPlayers_run (s : AmongUsSession) (idFrom idTo : string) (w : World) :
  moveAllPlayers E s idFrom idTo w =
    let moves := map (move (guild s) idTo) (getMembersInChannel w idFrom) in
    (outcome E moves, log_calls w moves).
Proof. unfold moveAllPlayers. apply (all_perform_map (move (guild s) idTo)). Qed.

Lemma all_moveAllPlayers (s : AmongUsSession) (idTo : string)
      (xs : list SessionChannel) (w : World) :
  all (map (fun x => moveAllPlayers E s (channelId x) idTo) xs) w =
    let moves :=
      flat_map (fun x => map (move (guild s) idTo) (getMembersInChannel w (channelId x))) xs in
    (outcome E moves, log_calls w moves).
Proof.
  cbv zeta. revert w. induction xs as [|x xs IH]; intros w.
  - cbn. now rewrite log_calls_nil.
  - cbn [map all flat_map]. rewrite moveAllPlayers_run. cbv beta iota zeta.
    rewrite IH, log_calls_app, outcome_app.
    change (fun x0 : SessionChannel =>
              map (move (guild s) idTo)
                  (getMembersInChannel (log_calls w _) (channelId x0)))
      with (fun x0 : SessionChannel =>
              map (move (guild s) idTo) (getMembersInChannel w (channelId x0))).
    now destruct (outcome E (map _ _)) as [[]|e].
Qed.

(** [movePlayersToTalkingChannel], for a session that has a talking
    channel. *)
Lemma movePlayersToTalkingChannel_run (s : AmongUsSession) (tc : SessionChannel)
      (w : World) :
  talkingOf s = Some tc ->
  movePlayersToTalkingChannel E s w =
    (outcome E (movesToTalking s w (channelId tc)),
     log_calls w (movesToTalking s w (channelId tc))).
Proof.
  intros Htc. unfold movePlayersToTalkingChannel, movesToTalking.
  fold (talkingOf s). fold (silenceChannelsOf s). rewrite Htc.
  destruct (silenceChannelsOf s) as [|x xs] eqn:Hxs.
  - cbn. now rewrite log_calls_nil.
  - unfold bind, channelIdOf, ret. apply all_moveAllPlayers.
Qed.

End Reconcilers.

Section SilenceReconciler.

Context (E : Env).

Lemma pop_snoc {A} (l : list A) (x : A) : JS.pop (l ++ [x]) = (Some x, l).
Proof.
  induction l as [|y l IH]; [reflexivity|].
  cbn [app]. cbn [JS.pop]. fold (@JS.pop A). rewrite IH.
  now destruct (l ++ [x]) eqn:Hl; [destruct l; discriminate|].
Qed.

Lemma set_channels_same (s : AmongUsSession) : set_channels s (channels s) = s.
Proof. now destruct s. Qed.

(** [movePlayersToSilenceChannel], for a session that has a talking
    channel: the loop over the administrators, then the batch of the
    others. *)
Lemma movePlayersToSilenceChannel_run (s : AmongUsSession) (tc : SessionChannel)
      (w : World) :
  talkingOf s = Some tc ->
  movePlayersToSilenceChannel E s w =
    let players := getMembersInChannel w (channelId tc) in
    match assignAdminChannels E (categoryOf s) (adminsIn E players)
                              (emptyAdminChannelsOf s w) s w with
    | (Throw e, w1) => (Throw e, w1)
    | (Return s1, w1) =>
        match normalsIn E players with
        | [] => (Return s1, w1)
        | _ :: _ =>
            match silenceOf s with
            | None => (Throw TypeError, w1)
            | Some sc =>
                let moves := map (move (guild s1) (channelId sc)) (normalsIn E players) in
                (match outcome E moves with
                 | Return _ => Return s1
                 | Throw e => Throw e
                 end, log_calls w1 moves)
            end
        end
    end.
Proof.
  intros Htc. unfold movePlayersToSilenceChannel.
  fold (talkingOf s) (silenceOf s) (categoryOf s). rewrite Htc.
  unfold bind at 1. unfold channelIdOf at 1. unfold ret at 1.
  unfold bind at 1. cbv zeta.
  fold (emptyAdminChannelsOf s w).
  fold (adminsIn E (getMembersInChannel w (channelId tc))).
  fold (normalsIn E (getMembersInChannel w (channelId tc))).
  unfold bind at 1.
  destruct (assignAdminChannels _ _ _ _ _ _) as [[s1|e] w1]; [|reflexivity].
  unfold bind at 1.
  destruct (normalsIn E (getMembersInChannel w (channelId tc))) as [|n ns] eqn:Hn;
    [reflexivity|].
  destruct (silenceOf s) as [sc|]; [|reflexivity].
  unfold bind, channelIdOf, ret.
  rewrite (all_perform_map E (move (guild s1) (channelId sc))).
  now destruct (outcome E _) as [[]|e].
Qed.

(** The loop over the administrators only adds calls, and leaves the
    session's guild alone. *)
Lemma assignAdminChannels_frame (category : option SessionChannel)
      (admins : list string) (empty : list SessionChannel)
      (s : AmongUsSession) (w : World) :
  exists r cs k,
    assignAdminChannels E category admins empty s w = (r, advance w cs k) /\
    forall s1, r = Return s1 -> guild s1 = guild s.
Proof.
  revert empty s w. induction admins as [|a rest IH]; intros empty s w.
  - cbn [assignAdminChannels]. unfold ret.
    exists (Return s), [], 0%nat. split.
    + f_equal. symmetry. apply log_calls_nil.
    + intros s1 Hs1. now injection Hs1 as <-.
  - cbn [assignAdminChannels].
    destruct (JS.pop empty) as [[c|] empty'].
    + unfold bind, perform. destruct (rejects E _).
      * eexists _, [_], 0%nat. split; [reflexivity | discriminate].
      * destruct (IH empty' s (record_call w (editGuildMember (guild s) a (channelId c))))
          as (r & cs & k & -> & Hg).
        eexists r, _, _. split; [|exact Hg].
        f_equal. rewrite record_call_log, log_calls_advance. apply advance_advance.
    + unfold bind at 1. unfold performId at 1. destruct (rejects E _).
      { eexists _, [_], 0%nat. split; [reflexivity | discriminate]. }
      unfold bind at 1. destruct category as [cat|]; unfold channelIdOf.
      2:{ eexists _, [_], 1%nat. split; [reflexivity | discriminate]. }
      unfold ret. unfold bind at 1. unfold performId at 1. destruct (rejects E _).
      { eexists _, [_; _], 1%nat. split;
          [f_equal; unfold advance, record_call, mint; cbn; f_equal;
           now rewrite <- app_assoc | discriminate]. }
      unfold bind at 1. unfold perform at 1. destruct (rejects E _).
      { eexists _, [_; _; _], 2%nat. split;
          [f_equal; unfold advance, record_call, mint; cbn; f_equal;
           now rewrite <- !app_assoc | discriminate]. }
      match goal with
      | |- context [assignAdminChannels E _ rest empty' ?s' ?w'] =>
          destruct (IH empty' s' w') as (r & cs & k & -> & Hg)
      end.
      eexists r, ([_; _; _] ++ cs), (k + 2)%nat. split.
      * f_equal. unfold advance, record_call, mint. cbn. f_equal.
        -- now rewrite <- !app_assoc.
        -- lia.
      * intros s1 Hs1. now rewrite (Hg s1 Hs1).
Qed.

Context (Hcalm : forall c, rejects E c = false).

Lemma assignAdminChannels_create (cat : SessionChannel) (admins : list string)
      (s : AmongUsSession) (w : World) :
  assignAdminChannels E (Some cat) admins [] s w =
    (Return (set_channels s (channels s ++ newChannels E (minted w) admins)),
     advance w (creations E (guild s) (channel s) (channelId cat) (minted w) admins)
             (2 * length admins)).
Proof.
  revert s w. induction admins as [|a rest IH]; intros s w.
  - cbn. rewrite app_nil_r, set_channels_same. f_equal. symmetry. apply log_calls_nil.
  - cbn [assignAdminChannels JS.pop].
    unfold bind, performId, perform, channelIdOf, ret. rewrite !Hcalm.
    rewrite IH. f_equal.
    + unfold set_channels, newChannels. cbn. now rewrite <- app_assoc.
    + unfold advance, mint, record_call. cbn. f_equal.
      * now rewrite <- !app_assoc.
      * lia.
Qed.

Lemma assignAdminChannels_calm (cat : SessionChannel) (admins : list string)
      (empty : list SessionChannel) (s : AmongUsSession) (w : World) :
  let created := drop (length empty) admins in
  assignAdminChannels E (Some cat) admins empty s w =
    (Return (set_channels s (channels s ++ newChannels E (minted w) created)),
     advance w (reuses (guild s) admins empty
                ++ creations E (guild s) (channel s) (channelId cat) (minted w) created)
             (2 * length created)).
Proof.
  cbv zeta. revert empty s w. induction admins as [|a rest IH]; intros empty s w.
  - rewrite drop_nil. cbn. rewrite app_nil_r, set_channels_same. f_equal.
    symmetry. apply log_calls_nil.
  - destruct empty as [|x l _] using rev_ind.
    + rewrite assignAdminChannels_create. reflexivity.
    + cbn [assignAdminChannels]. rewrite pop_snoc.
      unfold bind, perform. rewrite Hcalm. rewrite IH.
      rewrite length_app, Nat.add_1_r. cbn [drop].
      unfold reuses. rewrite reverse_snoc. cbn [zip_with map fst snd].
      f_equal. unfold advance, record_call. cbn. f_equal.
      now rewrite <- !app_assoc.
Qed.

End SilenceReconciler.

Section BatchMoves.

Context (E : Env).

Lemma batch_result {A} (m : M A) (moves : list Call) (w w' : World) (a : A) :
  m w = (match outcome E moves with Return _ => Return a | Throw e => Throw e end, w') ->
  ((forall c, c ∈ moves -> rejects E c = false) -> result m w = Return a) /\
  (forall c, c ∈ moves -> rejects E c = true ->
     exists c', c' ∈ moves /\ rejects E c' = true /\ result m w = Throw (Rejected c')).
Proof.
  intros Hm. unfold result. rewrite Hm. cbn [fst]. split.
  - intros Hok. now rewrite (outcome_accepted E moves Hok).
  - intros c Hc Hr. destruct (outcome_rejected E moves c Hc Hr) as (c' & Hin & Hrej & ->).
    now exists c'.
Qed.

Lemma movePlayersToSilenceChannel_batch (s : AmongUsSession) (tc sc : SessionChannel)
      (w : World) (s1 : AmongUsSession) :
  talkingOf s = Some tc ->
  silenceOf s = Some sc ->
  let players := getMembersInChannel w (channelId tc) in
  let admin := assignAdminChannels E (categoryOf s) (adminsIn E players)
                                   (emptyAdminChannelsOf s w) s in
  result admin w = Return s1 ->
  let moves := map (move (guild s) (channelId sc)) (normalsIn E players) in
  movePlayersToSilenceChannel E s w =
    (match outcome E moves with Return _ => Return s1 | Throw e => Throw e end,
     log_calls (exec admin w) moves) /\
  issued (movePlayersToSilenceChannel E s) w = issued admin w ++ moves.
Proof.
  intros Htc Hsc players admin Hadmin moves.
  destruct (assignAdminChannels_frame E (categoryOf s) (adminsIn E players)
              (emptyAdminChannelsOf s w) s w) as (r & cs & k & Hrun & Hguild).
  fold admin in Hrun. unfold result in Hadmin. rewrite Hrun in Hadmin.
  cbn [fst] in Hadmin. subst r. specialize (Hguild s1 eq_refl).
  assert (Hwhole : movePlayersToSilenceChannel E s w =
    (match outcome E moves with Return _ => Return s1 | Throw e => Throw e end,
     log_calls (exec admin w) moves)).
  { rewrite (movePlayersToSilenceChannel_run E s tc w Htc). cbv zeta.
    fold players. fold admin. unfold exec. rewrite Hrun, Hsc, Hguild. cbn [snd].
    fold moves. subst moves.
    destruct (normalsIn E players); [|reflexivity].
    cbn. now rewrite log_calls_nil. }
  split; [exact Hwhole|].
  rewrite (issued_log admin w _ cs _ Hrun eq_refl).
  eapply issued_log; [exact Hwhole|].
  unfold exec. rewrite Hrun. cbn. now rewrite app_assoc.
Qed.

End BatchMoves.

(** C4 (as stated, refuted): the rejection of one member's move is not kept
    inside the reconciliation. Both moves of the batch are issued, and the
    operation itself ends with the rejection of [bob]'s move. *)
Lemma C4_failed_move_propagates :
  let w := lingeringWorld [] ["bob"; "carol"] in
  issued (movePlayersToTalkingChannel stubbornEnv lingering) w
    = [editGuildMember "guild" "bob" "talking"; editGuildMember "guild" "carol" "talking"] /\
  result (movePlayersToTalkingChannel stubbornEnv lingering) w
    = Throw (Rejected (editGuildMember "guild" "bob" "talking")).
Proof. split; vm_compute; reflexivity. Qed.

(** C4 (amended): in a batch reconciliation -- the members of the silence
    channels to the talking channel, or, once the administrators have been
    dealt with, the other members of the talking channel to the silence
    channel -- the move of every member of the batch is issued whatever the
    outcome of the others; the operation is fulfilled when no move is
    rejected, and a rejected move is not caught: the operation ends with the
    rejection of a move of the batch. *)
Theorem C4_batch_moves (E : Env) (s : AmongUsSession) (w : World) (tc : SessionChannel) :
  talkingOf s = Some tc ->
  (let moves := movesToTalking s w (channelId tc) in
   issued (movePlayersToTalkingChannel E s) w = moves /\
   ((forall c, c ∈ moves -> rejects E c = false) ->
    result (movePlayersToTalkingChannel E s) w = Return tt) /\
   (forall c, c ∈ moves -> rejects E c = true ->
      exists c', c' ∈ moves /\ rejects E c' = true /\
                 result (movePlayersToTalkingChannel E s) w = Throw (Rejected c')))
  /\
  (forall (sc : SessionChannel) (s1 : AmongUsSession),
     silenceOf s = Some sc ->
     let players := getMembersInChannel w (channelId tc) in
     let admin := assignAdminChannels E (categoryOf s) (adminsIn E players)
                                      (emptyAdminChannelsOf s w) s in
     result admin w = Return s1 ->
     let moves := map (move (guild s) (channelId sc)) (normalsIn E players) in
     issued (movePlayersToSilenceChannel E s) w = issued admin w ++ moves /\
     ((forall c, c ∈ moves -> rejects E c = false) ->
      result (movePlayersToSilenceChannel E s) w = Return s1) /\
     (forall c, c ∈ moves -> rejects E c = true ->
        exists c', c' ∈ moves /\ rejects E c' = true /\
                   result (movePlayersToSilenceChannel E s) w = Throw (Rejected c'))).
Proof.
  intros Htc. split.
  - cbv zeta. pose proof (movePlayersToTalkingChannel_run E s tc w Htc) as Hrun.
    split; [eapply issued_log; [exact Hrun | reflexivity]|].
    apply (batch_result E _ _ w (log_calls w (movesToTalking s w (channelId tc))) tt).
    rewrite Hrun. now destruct (outcome E _) as [[]|].
  - intros sc s1 Hsc players admin Hadmin moves.
    destruct (movePlayersToSilenceChannel_batch E s tc sc w s1 Htc Hsc Hadmin)
      as [Hrun Hissued].
    split; [exact Hissued|].
    exact (batch_result E _ _ w _ s1 Hrun).
Qed.

Lemma C4_batch_moves_witness :
  issued (movePlayersToTalkingChannel stubbornEnv lingering)
         (lingeringWorld [] ["bob"; "carol"])
  = movesToTalking lingering (lingeringWorld [] ["bob"; "carol"]) "talking".
Proof.
  apply (C4_batch_moves stubbornEnv lingering (lingeringWorld [] ["bob"; "carol"])
           (mkSessionChannel "talking" TALKING (Some "invite"))).
  reflexivity.
Defined.

Section AdminChannels.

Context (E : Env) (Hcalm : forall c, rejects E c = false).

Lemma length_newChannelIds (n : nat) (admins : list string) :
  length (newChannelIds E n admins) = length admins.
Proof.
  revert n. induction admins as [|a rest IH]; intros n; [reflexivity|].
  cbn. now rewrite IH.
Qed.

Lemma length_newChannels (n : nat) (admins : list string) :
  length (newChannels E n admins) = length admins.
Proof. unfold newChannels. now rewrite length_map, length_newChannelIds. Qed.

Lemma newChannels_type (n : nat) (admins : list string) :
  Forall (fun c => type c = ADMIN_SILENCE) (newChannels E n admins).
Proof.
  unfold newChannels. induction (newChannelIds E n admins); constructor; auto.
Qed.

Lemma created_in_moves {A} (f : A -> Call) (xs : list A) :
  (forall x, isCreateChannel (f x) = false) ->
  List.filter isCreateChannel (map f xs) = [].
Proof.
  intros Hf. induction xs as [|x xs IH]; [reflexivity|].
  cbn [map List.filter]. now rewrite Hf.
Qed.

Lemma created_in_creations (g t p : string) (n : nat) (admins : list string) :
  length (List.filter isCreateChannel (creations E g t p n admins)) = length admins.
Proof.
  revert n. induction admins as [|a rest IH]; intros n; [reflexivity|].
  cbn. now rewrite IH.
Qed.

Lemma length_reuses (g : string) (admins : list string) (empty : list SessionChannel) :
  length (reuses g admins empty) = Nat.min (length admins) (length empty).
Proof. unfold reuses. now rewrite length_map, length_zip, length_reverse. Qed.

(** [movePlayersToSilenceChannel] when nothing is rejected. *)
Lemma movePlayersToSilenceChannel_calm (s : AmongUsSession)
      (tc cat sc : SessionChannel) (w : World) :
  talkingOf s = Some tc -> categoryOf s = Some cat -> silenceOf s = Some sc ->
  let players := getMembersInChannel w (channelId tc) in
  let admins := adminsIn E players in
  let empty := emptyAdminChannelsOf s w in
  let created := drop (length empty) admins in
  result (movePlayersToSilenceChannel E s) w
    = Return (set_channels s (channels s ++ newChannels E (minted w) created)) /\
  issued (movePlayersToSilenceChannel E s) w
    = reuses (guild s) admins empty
      ++ creations E (guild s) (channel s) (channelId cat) (minted w) created
      ++ map (move (guild s) (channelId sc)) (normalsIn E players).
Proof.
  intros Htc Hcat Hsc players admins empty created.
  pose proof (assignAdminChannels_calm E Hcalm cat admins empty s w) as Hassign.
  cbv zeta in Hassign. fold created in Hassign.
  set (s1 := set_channels s (channels s ++ newChannels E (minted w) created)) in *.
  assert (Hadmin : result (assignAdminChannels E (categoryOf s) admins empty s) w
                   = Return s1).
  { unfold result. now rewrite Hcat, Hassign. }
  destruct (movePlayersToSilenceChannel_batch E s tc sc w s1 Htc Hsc Hadmin)
    as [Hrun Hissued].
  split.
  - apply (batch_result E _ _ w _ s1 Hrun). intros c _. apply Hcalm.
  - rewrite Hissued, app_assoc. f_equal.
    rewrite Hcat. eapply issued_log; [exact Hassign | reflexivity].
Qed.

End AdminChannels.

(** C5 (as stated, refuted): the number of channels created is not always
    max (k - m) 0. With two administrators in the talking channel and one
    empty admin channel, the first administrator is moved into that channel;
    when the platform rejects this move the operation ends with the
    rejection, and no channel is created for the second administrator (0
    instead of 1). And with every call accepted, one administrator whom the
    index lists twice under the talking channel takes the one empty admin
    channel and is then given a new one as well (1 instead of 0). *)
Lemma C5_rejected_move_creates_none :
  (let w := lingeringWorld ["admin-ann"; "admin-bo"; "bob"] [] in
   let run := movePlayersToSilenceChannel absentEnv lingeringWithRoom in
   adminsIn absentEnv (getMembersInChannel w "talking") = ["admin-ann"; "admin-bo"] /\
   emptyAdminChannelsOf lingeringWithRoom w = [mkSessionChannel "room" ADMIN_SILENCE None] /\
   result run w = Throw (Rejected (editGuildMember "guild" "admin-ann" "room")) /\
   issued run w = [editGuildMember "guild" "admin-ann" "room"] /\
   List.filter isCreateChannel (issued run w) = []) /\
  (let w := lingeringWorld ["admin-ann"; "admin-ann"] [] in
   let run := movePlayersToSilenceChannel calmEnv lingeringWithRoom in
   emptyAdminChannelsOf lingeringWithRoom w = [mkSessionChannel "room" ADMIN_SILENCE None] /\
   issued run w
   = [ editGuildMember "guild" "admin-ann" "room";
       createMessage "text" (Text (adminNotice "admin-ann"));
       createChannel "guild" "Among Us - Admin Playing Channel" 2 "category"
                     (adminOverwrites "guild");
       editGuildMember "guild" "admin-ann" "##" ]).
Proof. repeat split; vm_compute; reflexivity. Qed.

(** C5 (amended): on a platform that rejects no call, for a session that has
    its CATEGORY, TALKING and SILENCE channels, with [k] the number of
    entries of administrators under the talking channel in the index (a
    member listed twice counts twice) and [m] the number of ADMIN_SILENCE
    channels that the index shows empty, [movePlayersToSilenceChannel] first
    moves administrators into the empty channels (min k m of them, last
    channel first), then creates one channel for each of the remaining
    entries: max (k - m) 0 channels, all ADMIN_SILENCE, are created and added
    to the session. *)
Theorem C5_admin_channels_created (E : Env) (s : AmongUsSession) (w : World)
        (tc cat sc : SessionChannel) :
  (forall c, rejects E c = false) ->
  talkingOf s = Some tc -> categoryOf s = Some cat -> silenceOf s = Some sc ->
  let players := getMembersInChannel w (channelId tc) in
  let admins := adminsIn E players in
  let empty := emptyAdminChannelsOf s w in
  let k := Z.of_nat (length admins) in
  let m := Z.of_nat (length empty) in
  let created := drop (length empty) admins in
  let new := newChannels E (minted w) created in
  result (movePlayersToSilenceChannel E s) w = Return (set_channels s (channels s ++ new)) /\
  Z.of_nat (length new) = Z.max (k - m) 0 /\
  Forall (fun c => type c = ADMIN_SILENCE) new /\
  Z.of_nat (length (List.filter isCreateChannel (issued (movePlayersToSilenceChannel E s) w)))
    = Z.max (k - m) 0 /\
  Z.of_nat (length (reuses (guild s) admins empty)) = Z.min k m /\
  issued (movePlayersToSilenceChannel E s) w
    = reuses (guild s) admins empty
      ++ creations E (guild s) (channel s) (channelId cat) (minted w) created
      ++ map (move (guild s) (channelId sc)) (normalsIn E players).
Proof.
  intros Hcalm Htc Hcat Hsc players admins empty k m created new.
  destruct (movePlayersToSilenceChannel_calm E Hcalm s tc cat sc w Htc Hcat Hsc)
    as [Hresult Hissued].
  fold players admins empty created in Hresult, Hissued.
  assert (Hcreated : Z.of_nat (length created) = Z.max (k - m) 0).
  { subst created k m. rewrite length_drop. lia. }
  split; [exact Hresult|].
  split; [subst new; now rewrite length_newChannels|].
  split; [apply newChannels_type|].
  split; [|split; [|exact Hissued]].
  - rewrite Hissued, !List.filter_app, !length_app.
    unfold reuses. rewrite !created_in_moves by reflexivity.
    rewrite created_in_creations. cbn [length]. lia.
  - rewrite length_reuses. subst k m. lia.
Qed.

Lemma C5_admin_channels_created_witness :
  (* two administrators, no admin channel: two are created, one each *)
  issued (movePlayersToSilenceChannel calmEnv lingering)
         (lingeringWorld ["admin-ann"; "admin-bo"] [])
  = [ createMessage "text" (Text (adminNotice "admin-ann"));
      createChannel "guild" "Among Us - Admin Playing Channel" 2 "category"
                    (adminOverwrites "guild");
      editGuildMember "guild" "admin-ann" "##";
      createMessage "text" (Text (adminNotice "admin-bo"));
      createChannel "guild" "Among Us - Admin Playing Channel" 2 "category"
                    (adminOverwrites "guild");
      editGuildMember "guild" "admin-bo" "####" ] /\
  (* one administrator, one empty admin channel: it is reused *)
  issued (movePlayersToSilenceChannel calmEnv lingeringWithRoom)
         (lingeringWorld ["admin-ann"] [])
  = [ editGuildMember "guild" "admin-ann" "room" ].
Proof.
  split.
  - pose proof (C5_admin_channels_created calmEnv lingering
                  (lingeringWorld ["admin-ann"; "admin-bo"] [])
                  (mkSessionChannel "talking" TALKING (Some "invite"))
                  (mkSessionChannel "category" CATEGORY None)
                  (mkSessionChannel "silence" SILENCE None)
                  (fun _ => eq_refl) eq_refl eq_refl eq_refl) as H.
    cbv zeta in H. destruct H as (_ & _ & _ & _ & _ & H). rewrite H. reflexivity.
  - pose proof (C5_admin_channels_created calmEnv lingeringWithRoom
                  (lingeringWorld ["admin-ann"] [])
                  (mkSessionChannel "talking" TALKING (Some "invite"))
                  (mkSessionChannel "category" CATEGORY None)
                  (mkSessionChannel "silence" SILENCE None)
                  (fun _ => eq_refl) eq_refl eq_refl eq_refl) as H.
    cbv zeta in H. destruct H as (_ & _ & _ & _ & _ & H). rewrite H. reflexivity.
Defined.

(** ** Where the administrators go *)

Section AdminAssignment.

Context (E : Env).

Lemma movesOf_app (cs ds : list Call) : movesOf (cs ++ ds) = movesOf cs ++ movesOf ds.
Proof. apply flat_map_app. Qed.

Lemma movesOf_moves {A} (f : A -> string * string) (g : string) (xs : list A) :
  movesOf (map (fun x => move g (snd (f x)) (fst (f x))) xs) = map f xs.
Proof.
  induction xs as [|x xs IH]; [reflexivity|].
  cbn [map movesOf flat_map app]. fold (movesOf (map (fun x => move g (snd (f x)) (fst (f x))) xs)).
  rewrite IH. now destruct (f x).
Qed.

Lemma movesOf_reuses (g : string) (admins : list string) (empty : list SessionChannel) :
  movesOf (reuses g admins empty)
  = map (fun p => (fst p, channelId (snd p))) (zip admins (reverse empty)).
Proof.
  unfold reuses.
  apply (movesOf_moves (fun p : string * SessionChannel => (fst p, channelId (snd p)))).
Qed.

Lemma movesOf_creations (g t p : string) (n : nat) (admins : list string) :
  movesOf (creations E g t p n admins) = zip admins (newChannelIds E n admins).
Proof.
  revert n. induction admins as [|a rest IH]; intros n; [reflexivity|].
  cbn [creations]. rewrite movesOf_app, IH. reflexivity.
Qed.

Lemma movesOf_normals (g sid : string) (ns : list string) :
  movesOf (map (move g sid) ns) = map (fun x => (x, sid)) ns.
Proof. apply (movesOf_moves (fun x : string => (x, sid))). Qed.

(** Pairing a list with targets: who gets one, and which. *)
Lemma zip_covers {A B} (l : list A) (k : list B) (x : A) :
  x ∈ l -> (exists y, (x, y) ∈ zip l k) \/ x ∈ drop (length k) l.
Proof.
  revert k. induction l as [|a l IH]; intros k Hx.
  - now apply elem_of_nil in Hx.
  - destruct k as [|b k]; [now right|].
    apply elem_of_cons in Hx as [->|Hx].
    + left. exists b. apply list_elem_of_here.
    + destruct (IH k Hx) as [[y Hy]|Hd].
      * left. exists y. now apply list_elem_of_further.
      * now right.
Qed.

Lemma zip_members {A B} (l : list A) (k : list B) (x : A) (y : B) :
  (x, y) ∈ zip l k -> x ∈ l /\ y ∈ k.
Proof.
  revert k. induction l as [|a l IH]; intros k H.
  - now apply elem_of_nil in H.
  - destruct k as [|b k]; [now apply elem_of_nil in H|].
    cbn in H. apply elem_of_cons in H as [[= -> ->]|H].
    + split; apply list_elem_of_here.
    + destruct (IH k H). split; now apply list_elem_of_further.
Qed.

Lemma zip_targets_NoDup {A B} (f : B -> string) (l : list A) (k : list B) :
  NoDup (map f k) -> NoDup (map (fun p => f (snd p)) (zip l k)).
Proof.
  revert k. induction l as [|a l IH]; intros k Hk; [apply NoDup_nil_2|].
  destruct k as [|b k]; [apply NoDup_nil_2|].
  cbn in *. apply NoDup_cons in Hk as [Hb Hk]. apply NoDup_cons. split; [|now apply IH].
  intros Hin. apply Hb.
  apply list_elem_of_In, in_map_iff in Hin as ([x y] & Hxy & Hin).
  apply list_elem_of_In in Hin. apply zip_members in Hin as [_ Hy].
  cbn in Hxy. rewrite <- Hxy. apply list_elem_of_In, in_map, list_elem_of_In, Hy.
Qed.

Lemma newChannelIds_minted (n : nat) (admins : list string) (y : string) :
  y ∈ newChannelIds E n admins -> exists i, (n < i)%nat /\ y = snowflake E i.
Proof.
  revert n. induction admins as [|a rest IH]; intros n Hy.
  - now apply elem_of_nil in Hy.
  - cbn in Hy. apply elem_of_cons in Hy as [->|Hy].
    + exists (S n). split; [lia | reflexivity].
    + destruct (IH _ Hy) as (i & Hi & ->). exists i. split; [lia | reflexivity].
Qed.

Lemma newChannelIds_NoDup (n0 n : nat) (admins : list string) :
  (forall i j, (n0 <= i)%nat -> (n0 <= j)%nat -> snowflake E i = snowflake E j -> i = j) ->
  (n0 <= n)%nat ->
  NoDup (newChannelIds E n admins).
Proof.
  intros Hinj. revert n. induction admins as [|a rest IH]; intros n Hn.
  - apply NoDup_nil_2.
  - cbn. apply NoDup_cons. split; [|apply IH; lia].
    intros Hin. apply newChannelIds_minted in Hin as (i & Hi & Heq).
    apply Hinj in Heq; lia.
Qed.

Lemma channel_by_id (l : list SessionChannel) (c c' : SessionChannel) :
  NoDup (map channelId l) -> c ∈ l -> c' ∈ l -> channelId c = channelId c' -> c = c'.
Proof.
  induction l as [|x l IH]; intros Hnd Hc Hc' Hid.
  - now apply elem_of_nil in Hc.
  - cbn in Hnd. apply NoDup_cons in Hnd as [Hx Hnd].
    apply elem_of_cons in Hc as [->|Hc]; apply elem_of_cons in Hc' as [->|Hc'].
    + reflexivity.
    + exfalso. apply Hx. rewrite Hid. apply list_elem_of_In, in_map, list_elem_of_In, Hc'.
    + exfalso. apply Hx. rewrite <- Hid. apply list_elem_of_In, in_map, list_elem_of_In, Hc.
    + now apply IH.
Qed.

Lemma filter_ids_NoDup (p : SessionChannel -> bool) (l : list SessionChannel) :
  NoDup (map channelId l) -> NoDup (map channelId (List.filter p l)).
Proof.
  induction l as [|x l IH]; intros Hnd; [apply NoDup_nil_2|].
  cbn in *. apply NoDup_cons in Hnd as [Hx Hnd].
  destruct (p x); [|now apply IH].
  cbn. apply NoDup_cons. split; [|now apply IH].
  intros Hin. apply Hx.
  apply list_elem_of_In, in_map_iff in Hin as (y & Hy & Hin).
  apply filter_In in Hin as [Hin _].
  rewrite <- Hy. apply list_elem_of_In, in_map, Hin.
Qed.

Lemma filter_NoDup {A} (p : A -> bool) (l : list A) :
  NoDup l -> NoDup (List.filter p l).
Proof.
  induction l as [|x l IH]; intros Hnd; [apply NoDup_nil_2|].
  apply NoDup_cons in Hnd as [Hx Hnd]. cbn. destruct (p x); [|now apply IH].
  apply NoDup_cons. split; [|now apply IH].
  intros Hin. apply Hx. apply list_elem_of_In, filter_In in Hin as [Hin _].
  now apply list_elem_of_In.
Qed.

Lemma reverse_ids_NoDup (l : list SessionChannel) :
  NoDup (map channelId l) -> NoDup (map channelId (reverse l)).
Proof.
  induction l as [|x l IH]; intros Hnd; [apply NoDup_nil_2|].
  cbn in Hnd. apply NoDup_cons in Hnd as [Hx Hnd].
  rewrite reverse_cons, map_app. apply NoDup_app.
  split; [now apply IH|]. split; [|apply NoDup_singleton].
  intros y Hy ->%list_elem_of_singleton. apply Hx.
  apply list_elem_of_In, in_map_iff in Hy as (c & Hc & Hin).
  apply list_elem_of_In in Hin. rewrite elem_of_reverse in Hin.
  rewrite <- Hc. apply list_elem_of_In, in_map, list_elem_of_In, Hin.
Qed.

Lemma elem_of_emptyAdminChannels (s : AmongUsSession) (w : World) (c : SessionChannel) :
  c ∈ reverse (emptyAdminChannelsOf s w) ->
  c ∈ channels s /\ type c = ADMIN_SILENCE /\ getMembersInChannel w (channelId c) = [].
Proof.
  rewrite elem_of_reverse. unfold emptyAdminChannelsOf.
  rewrite list_elem_of_In, filter_In, andb_true_iff, bool_decide_eq_true, Z.eqb_eq.
  intros (Hin & Hty & Hlen). split; [now apply list_elem_of_In|]. split; [exact Hty|].
  destruct (getMembersInChannel w (channelId c)); [reflexivity | cbn in Hlen; lia].
Qed.

Lemma find_channel (ty : SessionChannelType) (s : AmongUsSession) (c : SessionChannel) :
  JS.find (fun x => bool_decide (type x = ty)) (channels s) = Some c ->
  c ∈ channels s /\ type c = ty.
Proof.
  intros [Hin Hty%bool_decide_eq_true]%find_some. split; [now apply list_elem_of_In | exact Hty].
Qed.

End AdminAssignment.

Section SwitchEvents.

Context (E : Env).

(** The index entry of a channel other than [old], once the switch
    listener has handled the events of the moves [mv] out of [old]: the
    members moved there have been appended, in the order of the moves. *)
Lemma replay_moves (g old t : string) (mv : list (string * string)) (w : World) :
  t <> old ->
  getMembersInChannel
    (replay E (map (fun p => voiceChannelSwitch (mkMember (fst p) g) (snd p) old) mv) w) t
  = getMembersInChannel w t ++ map fst (List.filter (fun p => String.eqb (snd p) t) mv).
Proof.
  intros Hne. revert w. induction mv as [|[a t'] mv IH]; intros w.
  - cbn. now rewrite app_nil_r.
  - cbn [map replay handle fst snd]. rewrite IH, exec_onVoiceChange, members_onVoiceJoin.
    cbn [List.filter snd].
    destruct (String.eqb_spec t' t) as [->|Hdiff].
    + destruct (decide (t = t)); [|congruence].
      rewrite members_onVoiceLeave. destruct (decide (old = t)); [congruence|].
      cbn [map fst member_id]. now rewrite <- app_assoc.
    + destruct (decide (t' = t)); [congruence|].
      rewrite members_onVoiceLeave. now destruct (decide (old = t)); [congruence|].
Qed.

Lemma target_listed (shared : string) (mv : list (string * string)) (a t : string) :
  (a, t) ∈ mv -> t <> shared ->
  t ∈ List.filter (fun x => negb (String.eqb x shared)) (map snd mv).
Proof.
  intros Hin Hne. apply list_elem_of_In, filter_In. split.
  - apply (in_map snd mv (a, t)). now apply list_elem_of_In.
  - apply negb_true_iff. now apply String.eqb_neq.
Qed.

Lemma no_target (mv : list (string * string)) (t : string) :
  (forall a, (a, t) ∉ mv) -> List.filter (fun p => String.eqb (snd p) t) mv = [].
Proof.
  induction mv as [|[a t'] mv IH]; intros Hnone; [reflexivity|].
  cbn [List.filter snd]. destruct (String.eqb_spec t' t) as [->|_].
  - exfalso. apply (Hnone a), list_elem_of_here.
  - apply IH. intros a' Ha'. apply (Hnone a'). now apply list_elem_of_further.
Qed.

(** A target that stands once among the targets other than [shared] is
    the target of one move. *)
Lemma sole_target (shared : string) (mv : list (string * string)) (a t : string) :
  NoDup (List.filter (fun x => negb (String.eqb x shared)) (map snd mv)) ->
  (a, t) ∈ mv -> t <> shared ->
  map fst (List.filter (fun p => String.eqb (snd p) t) mv) = [a].
Proof.
  induction mv as [|[a' t'] mv IH]; intros Hnd Hin Hne.
  - now apply elem_of_nil in Hin.
  - cbn [map snd List.filter] in Hnd |- *.
    destruct (String.eqb_spec t' t) as [->|Hdiff].
    + apply String.eqb_neq in Hne as Hb. rewrite Hb in Hnd. cbn [negb] in Hnd.
      apply NoDup_cons in Hnd as [Hfirst _].
      assert (Hnone : forall x, (x, t) ∉ mv).
      { intros x Hx. apply Hfirst. now apply (target_listed shared mv x t). }
      rewrite (no_target mv t Hnone). cbn [map fst]. f_equal.
      apply elem_of_cons in Hin as [[= ->]|Hin]; [reflexivity|].
      now apply Hnone in Hin.
    + apply elem_of_cons in Hin as [[= -> ->]|Hin]; [congruence|].
      apply IH; [|exact Hin | exact Hne].
      destruct (negb (String.eqb t' shared)); [|exact Hnd].
      now apply NoDup_cons in Hnd as [_ Hnd].
Qed.

End SwitchEvents.

Section AdminsApart.

Context (E : Env) (Hcalm : forall c, rejects E c = false).
Context (s : AmongUsSession) (w : World) (tc cat sc : SessionChannel).
Context (Htc : talkingOf s = Some tc) (Hcat : categoryOf s = Some cat)
        (Hsc : silenceOf s = Some sc).
Context (Hids : NoDup (map channelId (channels s))).
Context (Hfresh : freshFrom E (minted w) s).
Context (Hvacant : vacantFrom E (minted w) w).

Let players := getMembersInChannel w (channelId tc).
Let admins := adminsIn E players.
Let empty := emptyAdminChannelsOf s w.
Let created := drop (length empty) admins.
Let newIds := newChannelIds E (minted w) created.
Let log := issued (movePlayersToSilenceChannel E s) w.

Let R := map (fun p : string * SessionChannel => (fst p, channelId (snd p)))
             (zip admins (reverse empty)).
Let C := zip created newIds.
Let N := map (fun x : string => (x, channelId sc)) (normalsIn E players).

Lemma movesOf_log : movesOf log = R ++ C ++ N.
Proof.
  subst log R C N.
  destruct (movePlayersToSilenceChannel_calm E Hcalm s tc cat sc w Htc Hcat Hsc)
    as [_ ->].
  now rewrite !movesOf_app, movesOf_reuses, movesOf_creations, movesOf_normals.
Qed.

Lemma in_R (a t : string) :
  (a, t) ∈ R ->
  isMemberAdmin E a = true /\
  exists c, c ∈ channels s /\ type c = ADMIN_SILENCE /\ t = channelId c.
Proof.
  subst R. intros Hin. apply list_elem_of_In, in_map_iff in Hin as ([a' c] & Heq & Hin).
  cbn in Heq. injection Heq as -> <-.
  apply list_elem_of_In, zip_members in Hin as [Ha Hc].
  split.
  - subst admins. unfold adminsIn in Ha. apply list_elem_of_In, filter_In in Ha. apply Ha.
  - exists c. apply elem_of_emptyAdminChannels in Hc as (Hin & Hty & _). auto.
Qed.

Lemma in_created (a : string) : a ∈ created -> a ∈ players /\ isMemberAdmin E a = true.
Proof.
  subst created. intros Ha.
  assert (Hadm : a ∈ admins) by (eapply elem_of_sublist; [exact Ha | apply sublist_drop]).
  subst admins. unfold adminsIn in Hadm.
  apply list_elem_of_In, filter_In in Hadm as [Hin Hadm].
  split; [now apply list_elem_of_In | exact Hadm].
Qed.

Lemma in_C (a t : string) :
  (a, t) ∈ C ->
  isMemberAdmin E a = true /\ t ∈ newIds /\ t ∉ map channelId (channels s).
Proof.
  subst C. intros [Ha Ht]%zip_members. split; [now apply in_created|]. split; [exact Ht|].
  subst newIds. apply newChannelIds_minted in Ht as (i & Hi & ->).
  apply Hfresh. lia.
Qed.

Lemma in_N (a t : string) :
  (a, t) ∈ N -> isMemberAdmin E a = false /\ t = channelId sc.
Proof.
  subst N. intros Hin. apply list_elem_of_In, in_map_iff in Hin as (x & Heq & Hin).
  injection Heq as -> <-. unfold normalsIn in Hin. apply filter_In in Hin as [_ Hn].
  split; [now apply negb_true_iff | reflexivity].
Qed.

Lemma silence_is_shared (c : SessionChannel) :
  c ∈ channels s -> type c = ADMIN_SILENCE -> channelId c <> channelId sc.
Proof.
  intros Hc Hty Hid. apply find_channel in Hsc as [Hin Hsil].
  pose proof (channel_by_id (channels s) c sc Hids Hc Hin Hid) as ->. congruence.
Qed.

Lemma admins_not_silenced (a : string) :
  isMemberAdmin E a = true -> (a, channelId sc) ∉ movesOf log.
Proof.
  intros Ha. rewrite movesOf_log. intros [H|[H|H]%elem_of_app]%elem_of_app.
  - apply in_R in H as (_ & c & Hc & Hty & Hid).
    now apply (silence_is_shared c Hc Hty).
  - apply in_C in H as (_ & _ & Hnew). apply Hnew.
    apply find_channel in Hsc as [Hin _].
    apply list_elem_of_In, in_map, list_elem_of_In, Hin.
  - apply in_N in H as [Hn _]. congruence.
Qed.

Lemma others_silenced (a t : string) :
  (a, t) ∈ movesOf log -> isMemberAdmin E a = false -> t = channelId sc.
Proof.
  rewrite movesOf_log. intros [H|[H|H]%elem_of_app]%elem_of_app Ha.
  - apply in_R in H as [H _]. congruence.
  - apply in_C in H as [H _]. congruence.
  - now apply in_N in H.
Qed.

Lemma admins_assigned (a : string) :
  a ∈ players -> isMemberAdmin E a = true ->
  exists c, c ∈ channels s ++ newChannels E (minted w) created /\
            type c = ADMIN_SILENCE /\ (a, channelId c) ∈ movesOf log.
Proof.
  intros Hin Ha. rewrite movesOf_log.
  assert (Hadm : a ∈ admins).
  { subst admins. unfold adminsIn. apply list_elem_of_In, filter_In.
    split; [now apply list_elem_of_In | exact Ha]. }
  destruct (zip_covers admins (reverse empty) a Hadm) as [[c Hc]|Hrest].
  - exists c. pose proof Hc as [_ Hempty]%zip_members.
    apply elem_of_emptyAdminChannels in Hempty as (Hchan & Hty & _).
    split; [apply elem_of_app; now left|]. split; [exact Hty|].
    apply elem_of_app. left. subst R.
    apply list_elem_of_In.
    apply (in_map (fun p : string * SessionChannel => (fst p, channelId (snd p)))
                  _ (a, c)).
    now apply list_elem_of_In.
  - rewrite length_reverse in Hrest. fold created in Hrest.
    destruct (zip_covers created newIds a Hrest) as [[y Hy]|Hnone].
    + exists (mkSessionChannel y ADMIN_SILENCE None).
      pose proof Hy as [_ Hnew]%zip_members.
      split; [|split; [reflexivity|]].
      * apply elem_of_app. right. unfold newChannels. fold newIds.
        apply list_elem_of_In.
        apply (in_map (fun i => mkSessionChannel i ADMIN_SILENCE None) _ y).
        now apply list_elem_of_In.
      * apply elem_of_app. right. apply elem_of_app. left. exact Hy.
    + subst newIds. rewrite length_newChannelIds, drop_all in Hnone.
      now apply elem_of_nil in Hnone.
Qed.

Lemma admin_targets_NoDup : NoDup (targetsBeside (channelId sc) log).
Proof.
  unfold targetsBeside. rewrite movesOf_log, app_assoc, map_app, List.filter_app.
  replace (List.filter _ (map snd N)) with (@nil string).
  2:{ subst N. induction (normalsIn E players) as [|x xs IH]; [reflexivity|].
      cbn. now rewrite String.eqb_refl. }
  rewrite app_nil_r. apply filter_NoDup.
  rewrite map_app. apply NoDup_app. split; [|split].
  - subst R. rewrite map_map. cbn [snd].
    apply (zip_targets_NoDup channelId). apply reverse_ids_NoDup.
    subst empty. unfold emptyAdminChannelsOf. now apply filter_ids_NoDup.
  - intros x Hx Hy.
    apply list_elem_of_In, in_map_iff in Hx as ([a t] & <- & Hx).
    apply list_elem_of_In, in_map_iff in Hy as ([a' t'] & Heq & Hy).
    cbn in Heq. subst t'.
    apply list_elem_of_In, in_R in Hx as (_ & c & Hc & _ & ->).
    apply list_elem_of_In, in_C in Hy as (_ & _ & Hnew). apply Hnew.
    apply list_elem_of_In, in_map, list_elem_of_In, Hc.
  - subst C.
    apply (zip_targets_NoDup (fun x : string => x) created newIds).
    rewrite map_id. subst newIds.
    apply (newChannelIds_NoDup E (minted w)); [apply Hfresh | lia].
Qed.

Lemma talking_is_apart (c : SessionChannel) :
  c ∈ channels s -> type c = ADMIN_SILENCE -> channelId c <> channelId tc.
Proof.
  intros Hc Hty Hid. apply find_channel in Htc as [Hin Htalk].
  pose proof (channel_by_id (channels s) c tc Hids Hc Hin Hid) as ->. congruence.
Qed.

(** Where an administrator is sent, the index lists nobody; it is neither
    the talking nor the shared silence channel. *)
Lemma admin_target (a t : string) :
  (a, t) ∈ movesOf log -> isMemberAdmin E a = true ->
  getMembersInChannel w t = [] /\ t <> channelId tc /\ t <> channelId sc.
Proof.
  rewrite movesOf_log. intros [H|[H|H]%elem_of_app]%elem_of_app Ha.
  - subst R. apply list_elem_of_In, in_map_iff in H as ([a' c] & Heq & H).
    cbn in Heq. injection Heq as -> <-.
    apply list_elem_of_In, zip_members in H as [_ Hc].
    apply elem_of_emptyAdminChannels in Hc as (Hin & Hty & Hnobody).
    split; [exact Hnobody|]. split.
    + now apply talking_is_apart.
    + now apply silence_is_shared.
  - apply in_C in H as (_ & Hnew & Hout). split; [|split].
    + subst newIds. apply newChannelIds_minted in Hnew as (i & Hi & ->).
      apply Hvacant. lia.
    + intros ->. apply Hout. apply find_channel in Htc as [Hin _].
      apply list_elem_of_In, in_map, list_elem_of_In, Hin.
    + intros ->. apply Hout. apply find_channel in Hsc as [Hin _].
      apply list_elem_of_In, in_map, list_elem_of_In, Hin.
  - apply in_N in H as [H _]. congruence.
Qed.

(** The operation leaves the index as it found it. *)
Lemma members_kept (t : string) :
  getMembersInChannel (exec (movePlayersToSilenceChannel E s) w) t
  = getMembersInChannel w t.
Proof.
  pose proof (assignAdminChannels_calm E Hcalm cat admins empty s w) as Hassign.
  cbv zeta in Hassign.
  assert (Hadmin : result (assignAdminChannels E (categoryOf s) admins empty s) w
                   = Return (set_channels s (channels s
                               ++ newChannels E (minted w) (drop (length empty) admins)))).
  { unfold result. now rewrite Hcat, Hassign. }
  destruct (movePlayersToSilenceChannel_batch E s tc sc w _ Htc Hsc Hadmin) as [Hrun _].
  unfold exec at 1. rewrite Hrun. cbn [snd]. unfold exec. fold players. fold admins.
  fold empty. rewrite Hcat, Hassign. reflexivity.
Qed.

Lemma admins_alone (a : string) :
  a ∈ players -> isMemberAdmin E a = true ->
  exists c, c ∈ channels s ++ newChannels E (minted w) created /\
            type c = ADMIN_SILENCE /\ (a, channelId c) ∈ movesOf log /\
            getMembersInChannel w (channelId c) = [] /\
            getMembersInChannel
              (replay E (switchesOf (guild s) (channelId tc) log)
                      (exec (movePlayersToSilenceChannel E s) w)) (channelId c) = [a].
Proof.
  intros Hin Ha. destruct (admins_assigned a Hin Ha) as (c & Hc & Hty & Hmove).
  destruct (admin_target a (channelId c) Hmove Ha) as (Hnobody & Hnt & Hns).
  exists c. split; [exact Hc|]. split; [exact Hty|]. split; [exact Hmove|].
  split; [exact Hnobody|].
  unfold switchesOf. rewrite (replay_moves E _ _ _ _ _ Hnt), members_kept, Hnobody.
  cbn [app]. exact (sole_target (channelId sc) _ a _ admin_targets_NoDup Hmove Hns).
Qed.

End AdminsApart.

Section Snowflakes.

Lemma length_hashes (n : nat) : String.length (hashes n) = n.
Proof. induction n as [|n IH]; [reflexivity | cbn; now rewrite IH]. Qed.

Lemma hashes_inj (i j : nat) : hashes i = hashes j -> i = j.
Proof. intros H. apply (f_equal String.length) in H. now rewrite !length_hashes in H. Qed.

Lemma calm_fresh (n : nat) : freshFrom calmEnv n lingeringWithRooms.
Proof.
  split.
  - intros i j _ _ H. apply hashes_inj in H. lia.
  - intros i _ Hin. cbn in Hin.
    repeat (apply elem_of_cons in Hin as [Hin|Hin]; [discriminate Hin|]).
    now apply elem_of_nil in Hin.
Qed.

Lemma calm_vacant (n : nat) (talking : list string) :
  vacantFrom calmEnv n (crowdedWorld talking).
Proof.
  intros i _. unfold getMembersInChannel, crowdedWorld.
  cbn [VOICE_CHANNEL_USERS snowflake calmEnv hashes].
  now rewrite !lookup_insert_ne, lookup_empty by discriminate.
Qed.

End Snowflakes.




(** ** Joining in the middle of a match *)

Section MidMatchJoin.

Context (E : Env).

Lemma indexOfList_range (l : list string) (m : string) : -1 <= JS.indexOfList l m.
Proof.
  induction l as [|y l IH]; cbn [JS.indexOfList]; [lia|].
  destruct (decide (y = m)); [lia|].
  destruct (Z.eqb_spec (JS.indexOfList l m) (-1)); lia.
Qed.

(** Leaving takes out the entry that a join has just appended. *)
Lemma leave_after_join (l : list string) (m : string) :
  m ∉ l ->
  JS.indexOfList (l ++ [m]) m <> -1 /\
  JS.splice1 (l ++ [m]) (JS.indexOfList (l ++ [m]) m) = l.
Proof.
  induction l as [|y l IH]; intros Hm.
  - cbn. destruct (decide (m = m)); [|congruence]. split; [lia | reflexivity].
  - apply not_elem_of_cons in Hm as [Hy Hm]. destruct (IH Hm) as [Hidx Hsplice].
    cbn [app JS.indexOfList]. destruct (decide (y = m)); [congruence|].
    pose proof (indexOfList_range (l ++ [m]) m) as Hrange.
    destruct (Z.eqb_spec (JS.indexOfList (l ++ [m]) m) (-1)); [contradiction|].
    split; [lia|]. unfold JS.splice1 in *.
    replace (Z.to_nat (JS.indexOfList (l ++ [m]) m + 1))
      with (S (Z.to_nat (JS.indexOfList (l ++ [m]) m))) by lia.
    change (delete (S ?n) (y :: ?k)) with (y :: delete n k).
    now rewrite Hsplice.
Qed.

Lemma issued_onVoiceJoin_playing (member : Member) (t : string) (w : World)
      (x : SessionChannel) (session : AmongUsSession) (sc : SessionChannel) :
  findOneTalking (store w) t = Some (x, session) ->
  state session = PLAYING ->
  silenceOf session = Some sc ->
  issued (onVoiceJoin E member t) w
  = [editGuildMember (member_guild member) (member_id member) (channelId sc)].
Proof.
  intros Hfind Hstate Hsc.
  unfold issued, exec, onVoiceJoin, bind, ret, set_index. cbn [fst snd store].
  rewrite Hfind, Hstate. rewrite bool_decide_eq_true_2 by reflexivity.
  fold (silenceOf session). rewrite Hsc. unfold channelIdOf, ret, perform.
  destruct (rejects E _); cbn [snd calls record_call]; apply drop_app_length.
Qed.

End MidMatchJoin.

(** C7 (as stated, refuted): when the join listener returns, the index
    lists the member under the TALKING channel, where the listener has just
    appended it, and not under the SILENCE channel; the listener only asks
    the platform for the move. *)
Lemma C7_index_right_after_join :
  let w := lingeringWorld [] [] in
  let join := onVoiceJoin calmEnv (mkMember "dave" "guild") "talking" in
  issued join w = [editGuildMember "guild" "dave" "silence"] /\
  getMembersInChannel (exec join w) "talking" = ["dave"] /\
  getMembersInChannel (exec join w) "silence" = [].
Proof. repeat split; vm_compute; reflexivity. Qed.

(** C7 (amended): when the join listener runs for a member entering the
    TALKING channel of a PLAYING session, it appends the member to the
    index entry of the TALKING channel and asks the platform to move the
    member to the session's SILENCE channel. The index lists the member under
    the SILENCE channel, and (for a member that was not listed under the
    TALKING channel before) no longer under the TALKING channel, once the
    switch listener has handled the resulting move from TALKING to SILENCE. *)
Theorem C7_mid_match_join (E : Env) (member : Member) (t : string) (w : World)
        (x : SessionChannel) (session : AmongUsSession) (sc : SessionChannel) :
  findOneTalking (store w) t = Some (x, session) ->
  state session = PLAYING ->
  silenceOf session = Some sc ->
  channelId sc <> t ->
  let w1 := exec (onVoiceJoin E member t) w in
  let w2 := exec (onVoiceChange E member (channelId sc) t) w1 in
  issued (onVoiceJoin E member t) w
    = [editGuildMember (member_guild member) (member_id member) (channelId sc)] /\
  getMembersInChannel w1 t = getMembersInChannel w t ++ [member_id member] /\
  getMembersInChannel w1 (channelId sc) = getMembersInChannel w (channelId sc) /\
  member_id member ∈ getMembersInChannel w2 (channelId sc) /\
  (member_id member ∉ getMembersInChannel w t ->
   member_id member ∉ getMembersInChannel w2 t).
Proof.
  intros Hfind Hstate Hsc Hne w1 w2.
  split; [now apply (issued_onVoiceJoin_playing E member t w x session sc)|].
  assert (H1 : getMembersInChannel w1 t = getMembersInChannel w t ++ [member_id member]).
  { subst w1. rewrite members_onVoiceJoin. now destruct (decide (t = t)). }
  split; [exact H1|]. split; [|split].
  - subst w1. rewrite members_onVoiceJoin. destruct (decide (t = channelId sc)); congruence.
  - subst w2. rewrite exec_onVoiceChange, members_onVoiceJoin.
    destruct (decide (channelId sc = channelId sc)); [|congruence].
    apply elem_of_app. right. apply list_elem_of_here.
  - intros Hnew. subst w2. rewrite exec_onVoiceChange, members_onVoiceJoin.
    destruct (decide (channelId sc = t)); [contradiction|].
    rewrite members_onVoiceLeave. destruct (decide (t = t)); [|congruence].
    cbv zeta. rewrite H1.
    destruct (leave_after_join _ _ Hnew) as [Hidx ->].
    destruct (Z.eqb_spec (JS.indexOfList (getMembersInChannel w t ++ [member_id member])
                                         (member_id member)) (-1));
      [contradiction | exact Hnew].
Qed.

Lemma C7_mid_match_join_witness :
  let w := lingeringWorld [] [] in
  let dave := mkMember "dave" "guild" in
  let w1 := exec (onVoiceJoin calmEnv dave "talking") w in
  let w2 := exec (onVoiceChange calmEnv dave "silence" "talking") w1 in
  "dave" ∈ getMembersInChannel w2 "silence" /\ "dave" ∉ getMembersInChannel w2 "talking".
Proof.
  cbv zeta.
  pose proof (C7_mid_match_join calmEnv (mkMember "dave" "guild") "talking"
                (lingeringWorld [] [])
                (mkSessionChannel "talking" TALKING (Some "invite")) lingering
                (mkSessionChannel "silence" SILENCE None)
                eq_refl eq_refl eq_refl) as H.
  cbv zeta in H. destruct H as (_ & _ & _ & Hin & Hout); [discriminate|].
  split; [exact Hin|]. apply Hout. vm_compute. intros H. inversion H.
Defined.

(** ** Silence and back *)

Section RoundTrip.

Context (E : Env).

Lemma switch_lists (m : string) (g new old : string) (w : World) :
  m ∈ getMembersInChannel (exec (onVoiceChange E (mkMember m g) new old) w) new.
Proof.
  rewrite exec_onVoiceChange, members_onVoiceJoin.
  destruct (decide (new = new)); [|congruence].
  apply elem_of_app. right. apply list_elem_of_here.
Qed.

Lemma switch_keeps (m m' : string) (g new old : string) (w : World) :
  new <> old ->
  m ∈ getMembersInChannel w new ->
  m ∈ getMembersInChannel (exec (onVoiceChange E (mkMember m' g) new old) w) new.
Proof.
  intros Hne Hm. rewrite exec_onVoiceChange, members_onVoiceJoin.
  destruct (decide (new = new)); [|congruence].
  apply elem_of_app. left. rewrite members_onVoiceLeave.
  destruct (decide (old = new)); [congruence | exact Hm].
Qed.

Lemma replay_switches (g new old : string) (ms : list string) (w : World) (m : string) :
  new <> old ->
  m ∈ ms \/ m ∈ getMembersInChannel w new ->
  m ∈ getMembersInChannel (replay E (switches g new old ms) w) new.
Proof.
  intros Hne. revert w. induction ms as [|m' ms IH]; intros w Hm.
  - destruct Hm as [Hm|Hm]; [now apply elem_of_nil in Hm | exact Hm].
  - cbn [switches map replay handle]. apply IH.
    destruct Hm as [[->|Hm]%elem_of_cons|Hm].
    + right. apply switch_lists.
    + now left.
    + right. now apply switch_keeps.
Qed.

Lemma no_admins (players : list string) :
  (forall m, m ∈ players -> isMemberAdmin E m = false) ->
  adminsIn E players = [] /\ normalsIn E players = players.
Proof.
  unfold adminsIn, normalsIn. induction players as [|p ps IH]; intros H; [now split|].
  cbn [List.filter]. rewrite (H p) by apply list_elem_of_here. cbn [negb].
  destruct IH as [-> ->]; [|now split].
  intros m Hm. apply H. now apply list_elem_of_further.
Qed.

Lemma silence_channel_listed (s : AmongUsSession) (sc : SessionChannel) :
  silenceOf s = Some sc -> sc ∈ silenceChannelsOf s.
Proof.
  intros [Hin Hty]%find_channel. unfold silenceChannelsOf.
  apply list_elem_of_In, filter_In. split; [now apply list_elem_of_In|].
  apply bool_decide_eq_true. rewrite Hty. unfold SILENCE_CHANNELS.
  apply list_elem_of_here.
Qed.

End RoundTrip.

(** C9 (as stated, refuted): run right after [movePlayersToSilenceChannel],
    with the index as that operation found it, [movePlayersToTalkingChannel]
    moves nobody: the members just moved to the SILENCE channel are still
    listed under the TALKING channel and stay where they were sent. *)
Lemma C9_immediately_back_moves_nobody :
  let w := lingeringWorld ["bob"; "carol"] [] in
  let w1 := exec (movePlayersToSilenceChannel calmEnv lingering) w in
  issued (movePlayersToSilenceChannel calmEnv lingering) w
    = [editGuildMember "guild" "bob" "silence"; editGuildMember "guild" "carol" "silence"] /\
  result (movePlayersToTalkingChannel calmEnv lingering) w1 = Return tt /\
  issued (movePlayersToTalkingChannel calmEnv lingering) w1 = [].
Proof. repeat split; vm_compute; reflexivity. Qed.

(** C9 (amended): for a session with no administrator in the talking
    channel and a platform that rejects nothing,
    [movePlayersToSilenceChannel] moves every member listed under the TALKING
    channel to the SILENCE channel; once the switch listener has handled the
    events of these moves, [movePlayersToTalkingChannel] moves every one of
    these members back to that TALKING channel. *)
Theorem C9_silence_and_back (E : Env) (s : AmongUsSession) (w : World)
        (tc sc : SessionChannel) :
  (forall c, rejects E c = false) ->
  talkingOf s = Some tc ->
  silenceOf s = Some sc ->
  channelId sc <> channelId tc ->
  let started := getMembersInChannel w (channelId tc) in
  (forall m, m ∈ started -> isMemberAdmin E m = false) ->
  let w1 := exec (movePlayersToSilenceChannel E s) w in
  let w2 := replay E (switches (guild s) (channelId sc) (channelId tc) started) w1 in
  result (movePlayersToSilenceChannel E s) w = Return s /\
  issued (movePlayersToSilenceChannel E s) w
    = map (move (guild s) (channelId sc)) started /\
  result (movePlayersToTalkingChannel E s) w2 = Return tt /\
  forall m, m ∈ started ->
    move (guild s) (channelId tc) m ∈ issued (movePlayersToTalkingChannel E s) w2.
Proof.
  intros Hcalm Htc Hsc Hne started Hnormal w1 w2.
  destruct (no_admins E started Hnormal) as [Hadmins Hnormals].
  assert (Hadmin : result (assignAdminChannels E (categoryOf s) (adminsIn E started)
                             (emptyAdminChannelsOf s w) s) w = Return s).
  { now rewrite Hadmins. }
  destruct (movePlayersToSilenceChannel_batch E s tc sc w s Htc Hsc Hadmin)
    as [Hrun Hissued].
  fold started in Hrun, Hissued. rewrite Hnormals in Hrun, Hissued.
  rewrite Hadmins in Hissued.
  split; [|split].
  - apply (batch_result E _ _ w _ s Hrun). intros c _. apply Hcalm.
  - rewrite Hissued. cbn [assignAdminChannels].
    unfold issued at 1. unfold exec, ret. cbn [snd]. now rewrite drop_all.
  - pose proof (movePlayersToTalkingChannel_run E s tc w2 Htc) as Hback.
    split.
    + unfold result. rewrite Hback. cbn [fst].
      apply outcome_accepted. intros c _. apply Hcalm.
    + intros m Hm. rewrite (issued_log _ _ _ _ _ Hback eq_refl).
      unfold movesToTalking. apply list_elem_of_In, in_flat_map.
      exists sc. split; [apply list_elem_of_In, silence_channel_listed, Hsc|].
      apply in_map, list_elem_of_In. subst w2.
      apply replay_switches; [exact Hne | now left].
Qed.

Lemma C9_silence_and_back_witness :
  let w := lingeringWorld ["bob"; "carol"] [] in
  let w1 := exec (movePlayersToSilenceChannel calmEnv lingering) w in
  let w2 := replay calmEnv (switches "guild" "silence" "talking" ["bob"; "carol"]) w1 in
  editGuildMember "guild" "bob" "talking"
    ∈ issued (movePlayersToTalkingChannel calmEnv lingering) w2.
Proof.
  cbv zeta.
  pose proof (C9_silence_and_back calmEnv lingering (lingeringWorld ["bob"; "carol"] [])
                (mkSessionChannel "talking" TALKING (Some "invite"))
                (mkSessionChannel "silence" SILENCE None)
                (fun _ => eq_refl) eq_refl eq_refl) as H.
  cbv zeta in H. destruct H as (_ & _ & _ & H).
  - discriminate.
  - intros m Hm. vm_compute in Hm.
    repeat (apply elem_of_cons in Hm as [->|Hm]; [reflexivity|]).
    now apply elem_of_nil in Hm.
  - apply (H "bob"). vm_compute. apply list_elem_of_here.
Defined.

(** ** The status message *)

(** C10: for a session whose state is neither LOBBY nor PLAYING nor
    DISCUSSING, [updateMessage] issues no call and changes nothing: it
    returns with the world as it found it. *)
Theorem C10_updateMessage_other_state (E : Env) (s : AmongUsSession) (w : World) :
  state s <> LOBBY -> state s <> PLAYING -> state s <> DISCUSSING ->
  updateMessage E s w = (Return tt, w) /\
  issued (updateMessage E s) w = [].
Proof.
  intros Hl Hp Hd.
  assert (Hrun : updateMessage E s w = (Return tt, w)).
  { unfold updateMessage. rewrite !bool_decide_eq_false_2 by assumption. reflexivity. }
  split; [exact Hrun|].
  eapply issued_log; [exact Hrun | now rewrite app_nil_r].
Qed.

Lemma C10_updateMessage_other_state_witness :
  let ended := mkSession 7 "guild" "text" "status" "host" ENDED EUROPE "ABCDEF" [] in
  issued (updateMessage calmEnv ended) (lingeringWorld [] []) = [].
Proof.
  cbv zeta.
  apply (C10_updateMessage_other_state calmEnv
           (mkSession 7 "guild" "text" "status" "host" ENDED EUROPE "ABCDEF" [])
           (lingeringWorld [] [])); discriminate.
Defined.

(** * Further properties of the sources *)

(** ** The membership index: leaving, and moving between channels *)

Section IndexEntries.

Context (E : Env).

Lemma indexOfList_absent (l : list string) (m : string) :
  m ∉ l -> JS.indexOfList l m = -1.
Proof.
  induction l as [|y l IH]; intros Hm; [reflexivity|].
  apply not_elem_of_cons in Hm as [Hy Hm]. cbn [JS.indexOfList].
  destruct (decide (y = m)); [congruence|]. now rewrite (IH Hm).
Qed.

Lemma indexOfList_present (l : list string) (m : string) :
  m ∈ l -> JS.indexOfList l m <> -1.
Proof.
  induction l as [|y l IH]; intros Hm; [now apply elem_of_nil in Hm|].
  cbn [JS.indexOfList]. destruct (decide (y = m)); [lia|].
  apply elem_of_cons in Hm as [->|Hm]; [congruence|].
  pose proof (IH Hm). pose proof (indexOfList_range l m).
  destruct (Z.eqb_spec (JS.indexOfList l m) (-1)); lia.
Qed.

(** [indexOf] and [splice] together take out the first occurrence. *)
Lemma splice_removeFirst (l : list string) (m : string) :
  (if JS.indexOfList l m =? -1 then l else JS.splice1 l (JS.indexOfList l m))
  = removeFirst m l.
Proof.
  induction l as [|y l IH]; [reflexivity|].
  cbn [JS.indexOfList removeFirst]. destruct (decide (y = m)); [reflexivity|].
  pose proof (indexOfList_range l m) as Hrange.
  destruct (Z.eqb_spec (JS.indexOfList l m) (-1)) as [Hi|Hi].
  - cbn. now rewrite <- IH.
  - destruct (Z.eqb_spec (JS.indexOfList l m + 1) (-1)); [lia|].
    rewrite <- IH. unfold JS.splice1.
    replace (Z.to_nat (JS.indexOfList l m + 1))
      with (S (Z.to_nat (JS.indexOfList l m))) by lia.
    reflexivity.
Qed.

Lemma members_after_leave (m : Member) (c c' : string) (w : World) :
  getMembersInChannel (exec (onVoiceLeave m c) w) c' =
    if decide (c = c') then removeFirst (member_id m) (getMembersInChannel w c)
    else getMembersInChannel w c'.
Proof.
  rewrite members_onVoiceLeave. cbv zeta.
  destruct (decide (c = c')); [apply splice_removeFirst | reflexivity].
Qed.

Lemma removeFirst_absent (m : string) (l : list string) : m ∉ l -> removeFirst m l = l.
Proof.
  induction l as [|y l IH]; intros Hm; [reflexivity|].
  apply not_elem_of_cons in Hm as [Hy Hm]. cbn.
  destruct (decide (y = m)); [congruence|]. now rewrite (IH Hm).
Qed.

Lemma removeFirst_present (m : string) (l : list string) :
  m ∈ l -> l ≡ₚ m :: removeFirst m l.
Proof.
  induction l as [|y l IH]; intros Hm; [now apply elem_of_nil in Hm|].
  cbn. destruct (decide (y = m)) as [->|Hy]; [reflexivity|].
  apply elem_of_cons in Hm as [->|Hm]; [congruence|].
  rewrite (IH Hm) at 1. apply Permutation_swap.
Qed.

Lemma removeFirst_others (m x : string) (l : list string) :
  x <> m -> (x ∈ removeFirst m l <-> x ∈ l).
Proof.
  intros Hx. induction l as [|y l IH]; [reflexivity|].
  cbn. destruct (decide (y = m)) as [->|Hy].
  - rewrite elem_of_cons. split; [now right | now intros [->|H]].
  - rewrite !elem_of_cons, IH. reflexivity.
Qed.

Lemma removeFirst_NoDup (m : string) (l : list string) :
  NoDup l -> m ∉ removeFirst m l.
Proof.
  induction l as [|y l IH]; intros Hnd; [apply not_elem_of_nil|].
  apply NoDup_cons in Hnd as [Hy Hnd]. cbn.
  destruct (decide (y = m)) as [->|Hne]; [exact Hy|].
  apply not_elem_of_cons. split; [congruence | now apply IH].
Qed.

Lemma removeFirst_snoc (m : string) (l : list string) :
  m ∉ l -> removeFirst m (l ++ [m]) = l.
Proof.
  induction l as [|y l IH]; intros Hm.
  - cbn. now destruct (decide (m = m)).
  - apply not_elem_of_cons in Hm as [Hy Hm]. cbn.
    destruct (decide (y = m)); [congruence|]. now rewrite (IH Hm).
Qed.

Lemma onVoiceLeave_calls (m : Member) (c : string) (w : World) :
  calls (exec (onVoiceLeave m c) w) = calls w /\
  store (exec (onVoiceLeave m c) w) = store w.
Proof.
  unfold exec, onVoiceLeave. destruct (VOICE_CHANNEL_USERS w !! c); [|now split].
  now destruct (_ =? -1).
Qed.

Lemma onVoiceJoin_store (m : Member) (c : string) (w : World) :
  store (exec (onVoiceJoin E m c) w) = store w.
Proof.
  unfold exec, onVoiceJoin, bind, ret, set_index. cbn [fst snd store].
  destruct (findOneTalking _ c) as [[x s]|]; [|reflexivity].
  destruct (bool_decide (state s = PLAYING)); [|reflexivity].
  destruct (JS.find _ (channels s)) as [sc|]; [|reflexivity].
  unfold channelIdOf, ret, perform. now destruct (rejects E _).
Qed.

End IndexEntries.

(** X1: leaving a channel under which the member is not listed (the
    channel may be unknown to the index) changes nothing at all. *)
Theorem X1_leave_unlisted_noop (m : Member) (c : string) (w : World) :
  member_id m ∉ getMembersInChannel w c ->
  onVoiceLeave m c w = (Return tt, w).
Proof.
  intros Hm. unfold onVoiceLeave, getMembersInChannel in *.
  destruct (VOICE_CHANNEL_USERS w !! c) as [users|]; [|reflexivity].
  cbn in Hm. cbv zeta. now rewrite (indexOfList_absent users _ Hm).
Qed.

Lemma X1_leave_unlisted_noop_witness :
  onVoiceLeave (mkMember "zed" "guild") "talking" (lingeringWorld ["bob"] [])
  = (Return tt, lingeringWorld ["bob"] []).
Proof.
  apply X1_leave_unlisted_noop. vm_compute. intros H.
  repeat (apply elem_of_cons in H as [H|H]; [discriminate H|]).
  now apply elem_of_nil in H.
Defined.

(** X2: leaving a channel under which the member is listed takes exactly
    one occurrence of the member out of that channel's entry, keeps the other
    entries, and issues no call. *)
Theorem X2_leave_removes_one (m : Member) (c : string) (w : World) :
  member_id m ∈ getMembersInChannel w c ->
  let w' := exec (onVoiceLeave m c) w in
  getMembersInChannel w c ≡ₚ member_id m :: getMembersInChannel w' c /\
  (forall c', c' <> c -> getMembersInChannel w' c' = getMembersInChannel w c') /\
  calls w' = calls w.
Proof.
  intros Hm w'. subst w'. split; [|split].
  - rewrite members_after_leave. destruct (decide (c = c)); [|congruence].
    now apply removeFirst_present.
  - intros c' Hc'. rewrite members_after_leave.
    destruct (decide (c = c')); [congruence | reflexivity].
  - apply onVoiceLeave_calls.
Qed.

Lemma X2_leave_removes_one_witness :
  getMembersInChannel (lingeringWorld ["bob"; "carol"; "bob"] []) "talking"
  ≡ₚ "bob" :: getMembersInChannel
       (exec (onVoiceLeave (mkMember "bob" "guild") "talking")
             (lingeringWorld ["bob"; "carol"; "bob"] [])) "talking".
Proof.
  apply (X2_leave_removes_one (mkMember "bob" "guild") "talking"
           (lingeringWorld ["bob"; "carol"; "bob"] [])).
  vm_compute. apply list_elem_of_here.
Defined.

(** X3: a join followed by a leave of the same member and channel gives
    back every entry of the index as it was, when the member was not listed
    under the channel before. *)
Theorem X3_join_then_leave (E : Env) (m : Member) (c : string) (w : World) :
  member_id m ∉ getMembersInChannel w c ->
  forall c',
    getMembersInChannel (exec (onVoiceLeave m c) (exec (onVoiceJoin E m c) w)) c'
    = getMembersInChannel w c'.
Proof.
  intros Hm c'. rewrite members_after_leave, !members_onVoiceJoin.
  destruct (decide (c = c')) as [<-|Hne].
  - destruct (decide (c = c)); [|congruence]. now apply removeFirst_snoc.
  - reflexivity.
Qed.

Lemma X3_join_then_leave_witness :
  getMembersInChannel
    (exec (onVoiceLeave (mkMember "dave" "guild") "talking")
          (exec (onVoiceJoin calmEnv (mkMember "dave" "guild") "talking")
                (lingeringWorld ["bob"] []))) "talking"
  = ["bob"].
Proof.
  apply (X3_join_then_leave calmEnv (mkMember "dave" "guild") "talking"
           (lingeringWorld ["bob"] []) ).
  vm_compute. intros H.
  repeat (apply elem_of_cons in H as [H|H]; [discriminate H|]).
  now apply elem_of_nil in H.
Defined.

(** X4: a switch from [old] to a different channel [new], when the entry
    of [old] has no duplicates, leaves the member listed under [new] and not
    under [old]; every other member is listed exactly where it was, and the
    entries of the other channels are untouched. *)
Theorem X4_switch_moves_member (E : Env) (m : Member) (new old : string) (w : World) :
  new <> old ->
  NoDup (getMembersInChannel w old) ->
  let w' := exec (onVoiceChange E m new old) w in
  (member_id m ∈ getMembersInChannel w' new) /\
  (member_id m ∉ getMembersInChannel w' old) /\
  (forall x c, x <> member_id m ->
     ((x ∈ getMembersInChannel w' c) <-> (x ∈ getMembersInChannel w c))) /\
  (forall c, c <> new -> c <> old ->
     getMembersInChannel w' c = getMembersInChannel w c).
Proof.
  intros Hne Hnd w'. subst w'. rewrite exec_onVoiceChange.
  split; [|split; [|split]].
  - rewrite members_onVoiceJoin. destruct (decide (new = new)); [|congruence].
    apply elem_of_app. right. apply list_elem_of_here.
  - rewrite members_onVoiceJoin. destruct (decide (new = old)); [congruence|].
    rewrite members_after_leave. destruct (decide (old = old)); [|congruence].
    now apply removeFirst_NoDup.
  - intros x c Hx. rewrite members_onVoiceJoin, !members_after_leave.
    destruct (decide (new = c)) as [<-|Hc].
    + destruct (decide (old = new)); [congruence|].
      rewrite elem_of_app, list_elem_of_singleton. split; [now intros [H|H] | now left].
    + destruct (decide (old = c)) as [<-|]; [now apply removeFirst_others | reflexivity].
  - intros c Hnew Hold. rewrite members_onVoiceJoin, !members_after_leave.
    destruct (decide (new = c)); [congruence|].
    destruct (decide (old = c)); [congruence | reflexivity].
Qed.

Lemma X4_switch_moves_member_witness :
  let w' := exec (onVoiceChange calmEnv (mkMember "bob" "guild") "silence" "talking")
                 (lingeringWorld ["bob"; "carol"] []) in
  ("bob" ∈ getMembersInChannel w' "silence") /\ ("bob" ∉ getMembersInChannel w' "talking").
Proof.
  cbv zeta.
  pose proof (X4_switch_moves_member calmEnv (mkMember "bob" "guild") "silence" "talking"
                (lingeringWorld ["bob"; "carol"] [])) as H.
  cbv zeta in H. destruct H as (Hin & Hout & _).
  - discriminate.
  - apply (bool_decide_unpack _). vm_compute. exact I.
  - split; [exact Hin | exact Hout].
Defined.

(** ** The join listener outside a match *)

(** X5: the join listener redirects nobody unless the channel is the
    TALKING channel of a persisted session that is PLAYING: for any other
    channel, and for a session in any other state, it issues no call and
    returns normally. *)
Theorem X5_join_without_redirect (E : Env) (m : Member) (c : string) (w : World) :
  (findOneTalking (store w) c = None \/
   exists x session, findOneTalking (store w) c = Some (x, session) /\
                     state session <> PLAYING) ->
  result (onVoiceJoin E m c) w = Return tt /\
  issued (onVoiceJoin E m c) w = [].
Proof.
  intros H. unfold result, issued, exec, onVoiceJoin, bind, ret, set_index.
  cbn [fst snd store calls].
  destruct H as [->|(x & session & -> & Hstate)].
  - cbn. now rewrite drop_all.
  - rewrite bool_decide_eq_false_2 by exact Hstate. cbn. now rewrite drop_all.
Qed.

Lemma X5_join_without_redirect_witness :
  issued (onVoiceJoin calmEnv (mkMember "dave" "guild") "silence") (lingeringWorld [] [])
  = [].
Proof.
  apply (X5_join_without_redirect calmEnv (mkMember "dave" "guild") "silence"
           (lingeringWorld [] [])).
  left. reflexivity.
Defined.

(** X6: when the session found for the TALKING channel is PLAYING but has
    no SILENCE channel, the join listener throws a TypeError after it has
    appended the member to the index entry; no call is issued. *)
Theorem X6_join_without_silence_channel (E : Env) (m : Member) (c : string) (w : World)
        (x : SessionChannel) (session : AmongUsSession) :
  findOneTalking (store w) c = Some (x, session) ->
  state session = PLAYING ->
  silenceOf session = None ->
  result (onVoiceJoin E m c) w = Throw TypeError /\
  issued (onVoiceJoin E m c) w = [] /\
  getMembersInChannel (exec (onVoiceJoin E m c) w) c
    = getMembersInChannel w c ++ [member_id m].
Proof.
  intros Hfind Hstate Hsc. split; [|split].
  - unfold result, onVoiceJoin, bind, ret, set_index. cbn [fst snd store].
    rewrite Hfind, Hstate, bool_decide_eq_true_2 by reflexivity.
    fold (silenceOf session). now rewrite Hsc.
  - unfold issued, exec, onVoiceJoin, bind, ret, set_index. cbn [fst snd store calls].
    rewrite Hfind, Hstate, bool_decide_eq_true_2 by reflexivity.
    fold (silenceOf session). rewrite Hsc. cbn. now rewrite drop_all.
  - rewrite members_onVoiceJoin. now destruct (decide (c = c)).
Qed.

Lemma X6_join_without_silence_channel_witness :
  let bare := set_channels lingering [mkSessionChannel "talking" TALKING None] in
  result (onVoiceJoin calmEnv (mkMember "dave" "guild") "talking")
         (set_store emptyWorld [bare])
  = Throw TypeError.
Proof.
  cbv zeta.
  apply (X6_join_without_silence_channel calmEnv (mkMember "dave" "guild") "talking"
           (set_store emptyWorld [set_channels lingering [mkSessionChannel "talking" TALKING None]])
           (mkSessionChannel "talking" TALKING None)
           (set_channels lingering [mkSessionChannel "talking" TALKING None]));
    reflexivity.
Defined.

(** X7: the voice listeners only read the persisted sessions: whatever
    events are handled, the store is the same afterwards. *)
Theorem X7_listeners_keep_store (E : Env) (evs : list VoiceEvent) (w : World) :
  store (replay E evs w) = store w.
Proof.
  revert w. induction evs as [|ev rest IH]; intros w; [reflexivity|].
  cbn [replay]. rewrite IH.
  destruct ev as [m c|m c|m new old]; cbn [handle].
  - apply onVoiceJoin_store.
  - apply onVoiceLeave_calls.
  - rewrite exec_onVoiceChange, onVoiceJoin_store. apply onVoiceLeave_calls.
Qed.

(** ** The lobby code *)

Section LobbyCode.

Lemma chars_toUpperCase (s : string) :
  chars (JS.toUpperCase s) = map JS.upperChar (chars s).
Proof. induction s as [|c r IH]; [reflexivity | cbn; now rewrite IH]. Qed.

Lemma inAlphabet_toUpperCase (s : string) :
  inAlphabet (JS.toUpperCase s) = codeChars s.
Proof.
  unfold inAlphabet, codeChars. rewrite chars_toUpperCase.
  induction (chars s) as [|c l IH]; [reflexivity|]. cbn [map forallb]. now rewrite IH.
Qed.

Lemma alphabet_char (c : ascii) :
  JS.includes V2 (String c EmptyString) = true ->
  JS.upperChar c = c /\ isCodeChar c = true.
Proof.
  destruct c as [[] [] [] [] [] [] [] []]; vm_compute; intros H;
    first [discriminate H | split; reflexivity].
Qed.

Lemma upperChar_idempotent (c : ascii) : JS.upperChar (JS.upperChar c) = JS.upperChar c.
Proof. destruct c as [[] [] [] [] [] [] [] []]; reflexivity. Qed.

Lemma upperChar_whiteSpace (c : ascii) :
  JS.isWhiteSpace (JS.upperChar c) = JS.isWhiteSpace c.
Proof. destruct c as [[] [] [] [] [] [] [] []]; reflexivity. Qed.

Lemma toUpperCase_idempotent (s : string) :
  JS.toUpperCase (JS.toUpperCase s) = JS.toUpperCase s.
Proof.
  induction s as [|c r IH]; [reflexivity|]. cbn. now rewrite IH, upperChar_idempotent.
Qed.

Lemma inAlphabet_fixed (s : string) :
  inAlphabet s = true -> JS.toUpperCase s = s /\ codeChars s = true.
Proof.
  unfold inAlphabet, codeChars. induction s as [|c r IH]; [now split|].
  cbn [chars forallb JS.toUpperCase]. intros [Hc Hr]%andb_prop.
  destruct (alphabet_char c Hc) as [-> ->]. destruct (IH Hr) as [-> ->]. now split.
Qed.

Lemma trimStart_toUpperCase (s : string) :
  JS.trimStart (JS.toUpperCase s) = JS.toUpperCase (JS.trimStart s).
Proof.
  induction s as [|c r IH]; [reflexivity|].
  cbn [JS.toUpperCase JS.trimStart]. rewrite upperChar_whiteSpace.
  now destruct (JS.isWhiteSpace c).
Qed.

Lemma trimEnd_toUpperCase (s : string) :
  JS.trimEnd (JS.toUpperCase s) = JS.toUpperCase (JS.trimEnd s).
Proof.
  induction s as [|c r IH]; [reflexivity|].
  cbn [JS.toUpperCase JS.trimEnd]. rewrite IH, upperChar_whiteSpace.
  destruct (JS.trimEnd r); cbn [JS.toUpperCase]; [now destruct (JS.isWhiteSpace c)|reflexivity].
Qed.

Lemma trim_toUpperCase (s : string) :
  JS.trim (JS.toUpperCase s) = JS.toUpperCase (JS.trim s).
Proof. unfold JS.trim. now rewrite trimStart_toUpperCase, trimEnd_toUpperCase. Qed.

Lemma trimStart_idempotent (s : string) : JS.trimStart (JS.trimStart s) = JS.trimStart s.
Proof.
  induction s as [|c r IH]; [reflexivity|].
  cbn [JS.trimStart]. destruct (JS.isWhiteSpace c) eqn:Hc; [exact IH|].
  cbn [JS.trimStart]. now rewrite Hc.
Qed.

Lemma trim_idempotent (s : string) : JS.trim (JS.trim s) = JS.trim s.
Proof.
  unfold JS.trim.
  now rewrite trimStart_trimEnd, trimStart_idempotent, trimEnd_idempotent.
Qed.

(** The verdict on a code depends on its trimmed, upper-cased form only. *)
Lemma validateLobbyCode_normal (a b : string) :
  JS.toUpperCase (JS.trim a) = JS.toUpperCase (JS.trim b) ->
  validateLobbyCode a = validateLobbyCode b.
Proof. intros H. unfold validateLobbyCode. now rewrite H. Qed.

Lemma validateLobbyCode_returned (code normal : string) :
  validateLobbyCode code = Return normal ->
  normal = JS.toUpperCase (JS.trim code) /\
  String.length normal = 6%nat /\ inAlphabet normal = true.
Proof.
  rewrite validateLobbyCode_spec.
  destruct (Nat.eqb_spec (String.length (JS.trim code)) 6) as [Hlen|]; [|discriminate].
  cbn [negb]. destruct (codeChars (JS.trim code)) eqn:Hchars; [|discriminate].
  cbn [negb]. intros [= <-].
  now rewrite length_toUpperCase, inAlphabet_toUpperCase.
Qed.

End LobbyCode.

(** X8: a lobby code that [validateLobbyCode] returns has exactly 6
    characters, each of them one of the 26 symbols of the alphabet. *)
Theorem X8_validated_code_well_formed (code normal : string) :
  validateLobbyCode code = Return normal ->
  String.length normal = 6%nat /\ inAlphabet normal = true.
Proof. intros H. now apply validateLobbyCode_returned in H as (_ & Hlen & Hin). Qed.

Lemma X8_validated_code_well_formed_witness :
  String.length "QWERTY" = 6%nat /\ inAlphabet "QWERTY" = true.
Proof. apply (X8_validated_code_well_formed "  qwerty " "QWERTY"). reflexivity. Defined.

(** X9: a returned lobby code is in normal form: validating it again
    returns it unchanged. *)
Theorem X9_validated_code_stable (code normal : string) :
  validateLobbyCode code = Return normal ->
  validateLobbyCode normal = Return normal.
Proof.
  intros H. apply validateLobbyCode_returned in H as (_ & Hlen & Hin).
  destruct (inAlphabet_fixed normal Hin) as [Hup Hchars].
  rewrite validateLobbyCode_spec, (trim_code normal Hchars), Hlen, Hchars, Hup.
  reflexivity.
Qed.

Lemma X9_validated_code_stable_witness :
  validateLobbyCode "QWERTY" = Return "QWERTY".
Proof. apply (X9_validated_code_stable " qwerty" "QWERTY"). reflexivity. Defined.

(** X10: for an ASCII code, [validateLobbyCode] gives the same verdict on
    the code, on the code in upper case, and on the code trimmed of
    surrounding white space. *)
Theorem X10_validation_ignores_case_and_padding (code : string) :
  asciiOnly code = true ->
  validateLobbyCode (JS.toUpperCase code) = validateLobbyCode code /\
  validateLobbyCode (JS.trim code) = validateLobbyCode code.
Proof.
  intros _. split; apply validateLobbyCode_normal.
  - now rewrite trim_toUpperCase, toUpperCase_idempotent.
  - now rewrite trim_idempotent.
Qed.

Lemma X10_validation_ignores_case_and_padding_witness :
  validateLobbyCode (JS.toUpperCase " qwerty ") = validateLobbyCode " qwerty ".
Proof. apply (X10_validation_ignores_case_and_padding " qwerty "). reflexivity. Defined.

(** ** The command line *)

Section CommandLine.

Lemma length_takeS (n : nat) (s : string) :
  String.length (takeS n s) = Nat.min n (String.length s).
Proof.
  revert s. induction n as [|n IH]; intros [|c r]; cbn; try reflexivity.
  now rewrite IH.
Qed.

Lemma length_dropS (n : nat) (s : string) :
  String.length (dropS n s) = (String.length s - n)%nat.
Proof.
  revert s. induction n as [|n IH]; intros [|c r]; cbn; try reflexivity; try lia.
  apply IH.
Qed.

Lemma length_trimStart (s : string) :
  (String.length (JS.trimStart s) <= String.length s)%nat.
Proof.
  induction s as [|c r IH]; cbn; [lia|]. destruct (JS.isWhiteSpace c); cbn; lia.
Qed.

Lemma length_trimEnd (s : string) :
  (String.length (JS.trimEnd s) <= String.length s)%nat.
Proof.
  induction s as [|c r IH]; cbn; [lia|].
  destruct (JS.trimEnd r); [destruct (JS.isWhiteSpace c)|]; cbn in *; lia.
Qed.

Lemma length_trim (s : string) : (String.length (JS.trim s) <= String.length s)%nat.
Proof.
  unfold JS.trim. pose proof (length_trimEnd (JS.trimStart s)).
  pose proof (length_trimStart s). lia.
Qed.

Lemma length_nextWordS (s : string) :
  (String.length (nextWordS s) <= String.length s)%nat.
Proof.
  unfold nextWordS. destruct (String.index 0 " " s); rewrite length_takeS; lia.
Qed.

(** Too short to be a code. *)
Lemma short_code_thrown (code : string) :
  (String.length code < 6)%nat -> validateLobbyCode code = Throw (Str INVALID_LENGTH).
Proof.
  intros H. rewrite validateLobbyCode_spec. pose proof (length_trim code).
  destruct (Nat.eqb_spec (String.length (JS.trim code)) 6); [lia | reflexivity].
Qed.

Lemma eqb_longer (s lit : string) :
  (String.length s < String.length lit)%nat -> String.eqb s lit = false.
Proof.
  intros H. destruct (String.eqb_spec s lit) as [->|]; [lia | reflexivity].
Qed.

(** The parser returns what [validateLobbyCode] returned for some part of
    the message. *)
Lemma parse_returns_validated (msg : string) (r : LobbyRegion) (code : string) :
  parseCommandInvocation msg = Return (r, code) ->
  exists part, validateLobbyCode part = Return code.
Proof.
  unfold parseCommandInvocation. cbv zeta.
  repeat match goal with
         | |- context [if ?b then _ else _] => destruct b
         end;
    cbv beta iota; try discriminate;
    match goal with
    | |- context [validateLobbyCode ?part] =>
        destruct (validateLobbyCode part) as [c|e] eqn:Hpart; [|discriminate];
        intros [= _ <-]; now exists part
    end.
Qed.

End CommandLine.

(** X11: whatever message [parseCommandInvocation] accepts, the code it
    returns has exactly 6 characters, each one of the 26 symbols of the
    alphabet. *)
Theorem X11_parsed_code_well_formed (msg : string) (r : LobbyRegion) (code : string) :
  parseCommandInvocation msg = Return (r, code) ->
  String.length code = 6%nat /\ inAlphabet code = true.
Proof.
  intros [part Hpart]%parse_returns_validated.
  now apply validateLobbyCode_returned in Hpart as (_ & Hlen & Hin).
Qed.

Lemma X11_parsed_code_well_formed_witness :
  String.length "ABCDEF" = 6%nat /\ inAlphabet "ABCDEF" = true.
Proof.
  apply (X11_parsed_code_well_formed "!amongus usa abcdef" NORTH_AMERICA "ABCDEF").
  reflexivity.
Defined.

(** X12: a command with no space after the prefix never parses: the
    parser throws whatever the text is. *)
Theorem X12_command_without_space_thrown (rest : string) :
  String.index 0 " " rest = None ->
  exists e, parseCommandInvocation (COMMAND_PREFIX +:+ rest) = Throw (Str e).
Proof.
  intros Hspace.
  cbv [COMMAND_PREFIX String.append].
  unfold parseCommandInvocation. cbv zeta.
  rewrite slice_from. unfold COMMAND_PREFIX. cbn [dropS String.length].
  rewrite slice_to_indexOf. rewrite ?slice_from.
  assert (Hshort : (String.length (dropS (String.length (nextWordS rest)) rest) <= 1)%nat).
  { rewrite length_dropS. unfold nextWordS. rewrite Hspace, length_takeS. lia. }
  remember (nextWordS rest) as nw eqn:Hnw. clear Hnw Hspace.
  repeat match goal with
         | |- context [String.eqb nw ?lit] =>
             destruct (String.eqb_spec nw lit) as [->|?]
         end; eqb_literals; repeat rewrite slice_from.
  all: try (rewrite short_code_thrown by lia; eauto).
  - rewrite slice_to_indexOf.
    rewrite eqb_longer; [eexists; reflexivity|].
    pose proof (length_nextWordS (JS.trim (dropS (String.length "north") rest))).
    pose proof (length_trim (dropS (String.length "north") rest)).
    cbn [String.length] in *. lia.
  - eexists; reflexivity.
Qed.

Lemma X12_command_without_space_thrown_witness :
  exists e, parseCommandInvocation (COMMAND_PREFIX +:+ "euABCDEF") = Throw (Str e).
Proof. apply X12_command_without_space_thrown. reflexivity. Defined.

(** X13: the one-word spelling [northamerica] is a region token too: the
    parser takes it for NORTH_AMERICA and validates what follows its space
    as the code. *)
Theorem X13_northamerica_token (rest : string) :
  parseCommandInvocation (commandLine "northamerica" rest) =
    match validateLobbyCode rest with
    | Throw e => Throw e
    | Return code => Return (NORTH_AMERICA, code)
    end.
Proof. change (parseCommandInvocation (commandLine "northamerica" rest)
               = validated NORTH_AMERICA rest). parse_token NORTH_AMERICA. Qed.

(** ** The message listener *)

Section MessageListener.

Context (E : Env).

Lemma swallow_returns {A} (m : M A) (w : World) : fst (swallow m w) = Return tt.
Proof.
  unfold swallow, try_catch, bind, ret. now destruct (m w) as [[a|e] w'].
Qed.

Lemma performId_accepted (c : Call) (w : World) :
  rejects E c = false ->
  performId E c w = (Return (snowflake E (minted w)), mint (record_call w c)).
Proof. intros H. unfold performId. now rewrite H. Qed.

Lemma performId_rejected (c : Call) (w : World) :
  rejects E c = true -> performId E c w = (Throw (Rejected c), record_call w c).
Proof. intros H. unfold performId. now rewrite H. Qed.

(** The listener on a command that parses. *)
Lemma onMessageCreated_parsed (msg : Message) (w : World)
      (r : LobbyRegion) (code : string) :
  JS.startsWith (content msg) COMMAND_PREFIX = true ->
  author_bot msg = false ->
  msg_channel_is_text msg = true ->
  parseCommandInvocation (content msg) = Return (r, code) ->
  onMessageCreated E msg w =
    try_catch
      (bind (createEmptyNewSession E msg r code)
            (fun session => perform E (startSession session)))
      (fun e => swallow (performId E (apology msg e))) w.
Proof.
  intros Hp Hb Ht Hparse. unfold onMessageCreated. rewrite Hp, Hb, Ht. cbn [negb orb].
  unfold try_catch, bind at 1. now rewrite Hparse.
Qed.

End MessageListener.

(** X14: the message listener never throws: whatever goes wrong while
    parsing, creating the session or starting it is caught, and a failure
    to send the apology is swallowed. *)
Theorem X14_message_listener_never_throws (E : Env) (msg : Message) (w : World) :
  result (onMessageCreated E msg) w = Return tt.
Proof.
  unfold result, onMessageCreated.
  destruct (negb _ || _); [reflexivity|].
  destruct (negb _); [reflexivity|].
  unfold try_catch.
  match goal with |- context [bind ?m ?k w] => destruct (bind m k w) as [[[]|e] w'] end.
  - reflexivity.
  - apply swallow_returns.
Qed.

(** X15: for a command that parses, once the platform has accepted the
    loading message the listener persists exactly one new session -- in
    state LOBBY, with the parsed region and code, the loading message as its
    status message and no channels -- and hands it to the session runner; if
    the runner fails the author gets the apology and the record stays. *)
Theorem X15_command_creates_session (E : Env) (msg : Message) (w : World)
        (r : LobbyRegion) (code : string) :
  JS.startsWith (content msg) COMMAND_PREFIX = true ->
  author_bot msg = false ->
  msg_channel_is_text msg = true ->
  parseCommandInvocation (content msg) = Return (r, code) ->
  rejects E (loadingMessage E msg r code) = false ->
  let session := newSession E msg r code w in
  store (exec (onMessageCreated E msg) w) = store w ++ [session] /\
  issued (onMessageCreated E msg) w =
    [loadingMessage E msg r code; startSession session]
    ++ (if rejects E (startSession session)
        then [apology msg (Rejected (startSession session))] else []).
Proof.
  intros Hp Hb Ht Hparse Hload session.
  assert (Hrun : exists k,
    onMessageCreated E msg w =
      (Return tt,
       mkWorld (VOICE_CHANNEL_USERS w) (store w ++ [session])
               (calls w ++ [loadingMessage E msg r code; startSession session]
                ++ (if rejects E (startSession session)
                    then [apology msg (Rejected (startSession session))] else []))
               k (S (nextPk w)))).
  { rewrite (onMessageCreated_parsed E msg w r code Hp Hb Ht Hparse).
    unfold try_catch, bind, createEmptyNewSession, bind.
    fold (loadingMessage E msg r code).
    rewrite (performId_accepted E _ w Hload).
    unfold persistAndFlush, perform. cbn [minted record_call mint nextPk].
    fold (newSession E msg r code w). fold session.
    destruct (rejects E (startSession session)) eqn:Hstart.
    - unfold swallow, try_catch, bind, ret, performId.
      destruct (rejects E (apology msg _)); eexists; unfold record_call, mint; cbn;
        rewrite <- ?app_assoc; cbn; reflexivity.
    - eexists. unfold record_call, mint. cbn. rewrite <- ?app_assoc. cbn. reflexivity. }
  destruct Hrun as [k Hrun]. unfold issued, exec. rewrite Hrun. cbn [snd store calls].
  split; [reflexivity | apply drop_app_length].
Qed.

Lemma X15_command_creates_session_witness :
  let msg := mkMessage "!amongus eu abcdef" "1" "host" false "text" true "guild" in
  store (exec (onMessageCreated calmEnv msg) emptyWorld)
  = [mkSession 0 "guild" "text" "#" "host" LOBBY EUROPE "ABCDEF" []].
Proof.
  cbv zeta.
  apply (X15_command_creates_session calmEnv
           (mkMessage "!amongus eu abcdef" "1" "host" false "text" true "guild")
           emptyWorld EUROPE "ABCDEF"); reflexivity.
Defined.

(** X16: when the platform rejects the loading message, no session is
    persisted and the session runner is not started; the author is sent the
    apology. *)
Theorem X16_loading_message_rejected (E : Env) (msg : Message) (w : World)
        (r : LobbyRegion) (code : string) :
  JS.startsWith (content msg) COMMAND_PREFIX = true ->
  author_bot msg = false ->
  msg_channel_is_text msg = true ->
  parseCommandInvocation (content msg) = Return (r, code) ->
  rejects E (loadingMessage E msg r code) = true ->
  store (exec (onMessageCreated E msg) w) = store w /\
  issued (onMessageCreated E msg) w =
    [loadingMessage E msg r code;
     apology msg (Rejected (loadingMessage E msg r code))].
Proof.
  intros Hp Hb Ht Hparse Hload.
  assert (Hrun : exists k,
    onMessageCreated E msg w =
      (Return tt,
       mkWorld (VOICE_CHANNEL_USERS w) (store w)
               (calls w ++ [loadingMessage E msg r code;
                            apology msg (Rejected (loadingMessage E msg r code))])
               k (nextPk w))).
  { rewrite (onMessageCreated_parsed E msg w r code Hp Hb Ht Hparse).
    unfold try_catch, bind, createEmptyNewSession, bind.
    fold (loadingMessage E msg r code).
    rewrite (performId_rejected E _ w Hload).
    unfold swallow, try_catch, bind, ret, performId.
    destruct (rejects E (apology msg _)); eexists; unfold record_call, mint; cbn;
      rewrite <- ?app_assoc; cbn; reflexivity. }
  destruct Hrun as [k Hrun]. unfold issued, exec. rewrite Hrun. cbn [snd store calls].
  split; [reflexivity | apply drop_app_length].
Qed.

Lemma X16_loading_message_rejected_witness :
  let msg := mkMessage "!amongus eu abcdef" "1" "host" false "text" true "guild" in
  store (exec (onMessageCreated plainEnv msg) emptyWorld) = [].
Proof.
  cbv zeta.
  apply (X16_loading_message_rejected plainEnv
           (mkMessage "!amongus eu abcdef" "1" "host" false "text" true "guild")
           emptyWorld EUROPE "ABCDEF"); reflexivity.
Defined.

(** ** The status message, further *)

Section StatusMessage.

Context (E : Env).

(** A single call: it is logged whatever its outcome, and nothing else
    changes. *)
Lemma perform_frame (c : Call) (w : World) :
  issued (perform E c) w = [c] /\
  store (exec (perform E c) w) = store w /\
  VOICE_CHANNEL_USERS (exec (perform E c) w) = VOICE_CHANNEL_USERS w.
Proof.
  unfold issued, exec, perform. cbn [snd calls record_call store VOICE_CHANNEL_USERS].
  now rewrite drop_app_length.
Qed.

Lemma updateMessageToLobby_run (s : AmongUsSession) (w : World) :
  updateMessageToLobby E s w =
    match talkingOf s with
    | None => (Throw TypeError, w)
    | Some tc =>
        perform E (editMessage (channel s) (message s) {|
          color := INFO;
          title := Some ("🎲 Among Us - " +:+ regionText E (region s) +:+ " - "
                         +:+ lobbyCode s);
          description := hostingText s tc
            +:+ "To join the Among Us lobby, select the **" +:+ regionText E (region s)
            +:+ "** server and enter code `" +:+ lobbyCode s +:+ "`.";
          footer := reminder |}) w
    end.
Proof.
  unfold updateMessageToLobby, mainChannelOf, bind. fold (talkingOf s).
  now destruct (talkingOf s).
Qed.

Lemma updateMessageToPlaying_run (s : AmongUsSession) (w : World) :
  updateMessageToPlaying E s w =
    match talkingOf s with
    | None => (Throw TypeError, w)
    | Some tc =>
        perform E (editMessage (channel s) (message s) {|
          color := WARN;
          title := Some ("🎲 Among Us - " +:+ regionText E (region s) +:+ " - "
                         +:+ lobbyCode s +:+ " (In Game)");
          description := hostingText s tc
            +:+ "~~To join the Among Us lobby, select the **" +:+ regionText E (region s)
            +:+ "** server and enter code `" +:+ lobbyCode s
            +:+ "`.~~ The lobby is currently ongoing! You'll need to wait for the round to end before you can join.";
          footer := reminder |}) w
    end.
Proof.
  unfold updateMessageToPlaying, mainChannelOf, bind. fold (talkingOf s).
  now destruct (talkingOf s).
Qed.

(** [updateMessage] in one of the three states it knows. *)
Lemma updateMessage_run (s : AmongUsSession) (w : World) :
  state s = LOBBY \/ state s = PLAYING \/ state s = DISCUSSING ->
  updateMessage E s w =
    if bool_decide (state s = LOBBY)
    then (let '(r, w') := updateMessageToLobby E s w in
          (match r with Return _ => Return tt | Throw e => Throw e end, w'))
    else updateMessageToPlaying E s w.
Proof.
  intros Hstate. unfold updateMessage, bind.
  destruct Hstate as [H|[H|H]]; rewrite H;
    rewrite ?(bool_decide_eq_true_2 (LOBBY = LOBBY)),
            ?(bool_decide_eq_true_2 (PLAYING = PLAYING)),
            ?(bool_decide_eq_true_2 (DISCUSSING = DISCUSSING)) by reflexivity;
    rewrite ?bool_decide_eq_false_2 by discriminate; cbn [orb].
  - destruct (updateMessageToLobby E s w) as [[[]|e] w']; reflexivity.
  - reflexivity.
  - reflexivity.
Qed.

End StatusMessage.

(** X17: the three terminal rewrites of the status message -- error, lobby
    closed, stale session -- each issue exactly one call, an edit of the
    session's own status message in the error colour, and remove nothing:
    the store and the index are as before. *)
Theorem X17_terminal_rewrites_keep_session (E : Env) (s : AmongUsSession)
        (error : string) (w : World) :
  Forall (fun m : M unit =>
            (exists e, color e = ERROR /\
                       issued m w = [editMessage (channel s) (message s) e]) /\
            store (exec m w) = store w /\
            VOICE_CHANNEL_USERS (exec m w) = VOICE_CHANNEL_USERS w)
         [ updateMessageWithError E s error;
           updateMessageWithSessionOver E s;
           updateMessageWithSessionStale E s ].
Proof.
  repeat constructor;
    try (eexists; split; [|apply perform_frame]; reflexivity);
    apply perform_frame.
Qed.

(** X18: a PLAYING and a DISCUSSING session get the same status message:
    [updateMessage] does the same for two sessions that differ in that state
    only. *)
Theorem X18_playing_and_discussing_alike (E : Env) (s : AmongUsSession) (w : World) :
  updateMessage E (with_state s PLAYING) w = updateMessage E (with_state s DISCUSSING) w.
Proof.
  rewrite !updateMessage_run by (cbn; auto).
  cbn [state with_state]. rewrite !bool_decide_eq_false_2 by discriminate.
  now rewrite !updateMessageToPlaying_run.
Qed.

(** X19: for a session in state LOBBY, PLAYING or DISCUSSING that has no
    TALKING channel, [updateMessage] throws a TypeError before any call: the
    status message is not touched. *)
Theorem X19_status_without_talking_channel (E : Env) (s : AmongUsSession) (w : World) :
  state s = LOBBY \/ state s = PLAYING \/ state s = DISCUSSING ->
  talkingOf s = None ->
  updateMessage E s w = (Throw TypeError, w).
Proof.
  intros Hstate Htc. rewrite (updateMessage_run E s w Hstate).
  rewrite updateMessageToLobby_run, updateMessageToPlaying_run, Htc.
  now destruct (bool_decide (state s = LOBBY)).
Qed.

Lemma X19_status_without_talking_channel_witness :
  updateMessage calmEnv (set_channels lingering []) emptyWorld = (Throw TypeError, emptyWorld).
Proof.
  apply (X19_status_without_talking_channel calmEnv (set_channels lingering []) emptyWorld).
  - right. left. reflexivity.
  - reflexivity.
Defined.

(** X20: for a session in state LOBBY, PLAYING or DISCUSSING that has a
    TALKING channel, [updateMessage] issues exactly one call, an edit of the
    session's own status message -- in the information colour for LOBBY, in
    the warning colour otherwise -- and leaves the store and the index as
    they are. *)
Theorem X20_status_single_edit (E : Env) (s : AmongUsSession) (tc : SessionChannel)
        (w : World) :
  state s = LOBBY \/ state s = PLAYING \/ state s = DISCUSSING ->
  talkingOf s = Some tc ->
  (exists e,
     color e = (if bool_decide (state s = LOBBY) then INFO else WARN) /\
     issued (updateMessage E s) w = [editMessage (channel s) (message s) e]) /\
  store (exec (updateMessage E s) w) = store w /\
  VOICE_CHANNEL_USERS (exec (updateMessage E s) w) = VOICE_CHANNEL_USERS w.
Proof.
  intros Hstate Htc. unfold issued, exec.
  rewrite (updateMessage_run E s w Hstate).
  rewrite updateMessageToLobby_run, updateMessageToPlaying_run, Htc.
  destruct (bool_decide (state s = LOBBY)).
  - match goal with
    | |- context [perform E ?c w] =>
        pose proof (perform_frame E c w) as (Hi & Hs & Hv);
          unfold issued, exec in Hi, Hs, Hv; destruct (perform E c w) as [r w']
    end.
    cbn [snd] in *. split; [eexists; split; [|exact Hi]; reflexivity | now split].
  - match goal with
    | |- context [perform E ?c w] =>
        pose proof (perform_frame E c w) as (Hi & Hs & Hv);
          unfold issued, exec in Hi, Hs, Hv; destruct (perform E c w) as [r w']
    end.
    cbn [snd] in *. split; [eexists; split; [|exact Hi]; reflexivity | now split].
Qed.

Lemma X20_status_single_edit_witness :
  store (exec (updateMessage calmEnv lingering) (lingeringWorld [] [])) = [lingering].
Proof.
  apply (X20_status_single_edit calmEnv lingering
           (mkSessionChannel "talking" TALKING (Some "invite")) (lingeringWorld [] [])).
  - right. left. reflexivity.
  - reflexivity.
Defined.

(** ** The reconcilers, further *)

Section ReconcilerEdges.

Context (E : Env).

Lemma movePlayersToSilenceChannel_thrown (s : AmongUsSession) (tc : SessionChannel)
      (w : World) (e : Thrown) :
  talkingOf s = Some tc ->
  let players := getMembersInChannel w (channelId tc) in
  let admin := assignAdminChannels E (categoryOf s) (adminsIn E players)
                                   (emptyAdminChannelsOf s w) s in
  result admin w = Throw e ->
  movePlayersToSilenceChannel E s w = (Throw e, exec admin w).
Proof.
  intros Htc players admin Hadmin.
  rewrite (movePlayersToSilenceChannel_run E s tc w Htc). cbv zeta.
  fold players. fold admin. unfold result, exec in *.
  destruct (admin w) as [[s1|e'] w1]; cbn [fst snd] in *; congruence.
Qed.

Lemma movePlayersToSilenceChannel_frame (s : AmongUsSession) (w : World) :
  exists r cs k, movePlayersToSilenceChannel E s w = (r, advance w cs k).
Proof.
  destruct (talkingOf s) as [tc|] eqn:Htc.
  - rewrite (movePlayersToSilenceChannel_run E s tc w Htc). cbv zeta.
    destruct (assignAdminChannels_frame E (categoryOf s)
                (adminsIn E (getMembersInChannel w (channelId tc)))
                (emptyAdminChannelsOf s w) s w) as (r & cs & k & -> & _).
    destruct r as [s1|e]; [|now eexists _, _, _].
    destruct (normalsIn E _); [now eexists _, _, _|].
    destruct (silenceOf s); [|now eexists _, _, _].
    eexists _, _, _. rewrite log_calls_advance, advance_advance. reflexivity.
  - exists (Throw TypeError), [], 0%nat.
    unfold movePlayersToSilenceChannel. fold (talkingOf s). rewrite Htc.
    unfold bind, channelIdOf, throw. f_equal. symmetry. apply log_calls_nil.
Qed.

Lemma movePlayersToTalkingChannel_frame (s : AmongUsSession) (w : World) :
  exists r cs, movePlayersToTalkingChannel E s w = (r, log_calls w cs).
Proof.
  destruct (talkingOf s) as [tc|] eqn:Htc.
  - rewrite (movePlayersToTalkingChannel_run E s tc w Htc). now eexists _, _.
  - unfold movePlayersToTalkingChannel. fold (talkingOf s) (silenceChannelsOf s).
    rewrite Htc. destruct (silenceChannelsOf s).
    + exists (Return tt), []. unfold ret. now rewrite log_calls_nil.
    + exists (Throw TypeError), []. unfold bind, channelIdOf, throw.
      now rewrite log_calls_nil.
Qed.

Lemma cleanUpSession_returned (s : AmongUsSession) (w : World) :
  result (cleanUpSession E s) w = Return tt ->
  store (exec (cleanUpSession E s) w) = without s (store w).
Proof.
  rewrite cleanUpSession_unfold. unfold result, exec, bind.
  pose proof (forOf_perform_store E deletion (channels s) w) as Hstore.
  unfold exec in Hstore.
  destruct (forOf (channels s) _ w) as [[[]|e'] w1]; cbn [snd] in Hstore;
    [|discriminate].
  unfold perform. destruct (rejects E _); [discriminate|].
  intros _. cbn. unfold without. now rewrite Hstore.
Qed.

Lemma cleanUpSession_store (s : AmongUsSession) (w : World) :
  store (exec (cleanUpSession E s) w) = store w \/
  store (exec (cleanUpSession E s) w) = without s (store w).
Proof.
  destruct (result (cleanUpSession E s) w) as [[]|e] eqn:Hres.
  - right. now apply cleanUpSession_returned.
  - left. now apply (cleanUpSession_thrown E s w e).
Qed.

End ReconcilerEdges.

(** X21: [movePlayersToTalkingChannel] moves nobody but the members the
    index lists under a SILENCE or ADMIN_SILENCE channel of the session, and
    moves them to the TALKING channel only; this holds whatever the platform
    rejects. *)
Theorem X21_only_silenced_members_moved_back (E : Env) (s : AmongUsSession)
        (tc : SessionChannel) (w : World) (c : Call) :
  talkingOf s = Some tc ->
  c ∈ issued (movePlayersToTalkingChannel E s) w ->
  exists x m,
    x ∈ channels s /\ (type x = SILENCE \/ type x = ADMIN_SILENCE) /\
    m ∈ getMembersInChannel w (channelId x) /\
    c = editGuildMember (guild s) m (channelId tc).
Proof.
  intros Htc Hc.
  rewrite (issued_log _ _ _ _ _ (movePlayersToTalkingChannel_run E s tc w Htc) eq_refl) in Hc.
  unfold movesToTalking in Hc.
  apply list_elem_of_In, in_flat_map in Hc as (x & Hx & Hc).
  apply in_map_iff in Hc as (m & <- & Hm).
  unfold silenceChannelsOf in Hx. apply filter_In in Hx as [Hx Hty].
  apply bool_decide_eq_true in Hty. unfold SILENCE_CHANNELS in Hty.
  exists x, m. split; [now apply list_elem_of_In|]. split.
  - apply elem_of_cons in Hty as [Hty|Hty]; [now left|].
    apply list_elem_of_singleton in Hty. now right.
  - split; [now apply list_elem_of_In | reflexivity].
Qed.

Lemma X21_only_silenced_members_moved_back_witness :
  exists x m,
    x ∈ channels lingering /\ (type x = SILENCE \/ type x = ADMIN_SILENCE) /\
    m ∈ getMembersInChannel (lingeringWorld ["ann"] ["bob"]) (channelId x) /\
    editGuildMember "guild" "bob" "talking" = editGuildMember (guild lingering) m "talking".
Proof.
  apply (X21_only_silenced_members_moved_back calmEnv lingering
           (mkSessionChannel "talking" TALKING (Some "invite"))
           (lingeringWorld ["ann"] ["bob"])).
  - reflexivity.
  - vm_compute. apply list_elem_of_here.
Defined.

(** X22: a session without a TALKING channel cannot be reconciled:
    [movePlayersToSilenceChannel] throws a TypeError at once, and so does
    [movePlayersToTalkingChannel] unless the session has no silence-typed
    channel either, in which case it does nothing; in no case is a call
    issued. *)
Theorem X22_reconcile_without_talking_channel (E : Env) (s : AmongUsSession) (w : World) :
  talkingOf s = None ->
  movePlayersToSilenceChannel E s w = (Throw TypeError, w) /\
  movePlayersToTalkingChannel E s w =
    (match silenceChannelsOf s with [] => Return tt | _ :: _ => Throw TypeError end, w).
Proof.
  intros Htc. split.
  - unfold movePlayersToSilenceChannel. fold (talkingOf s). now rewrite Htc.
  - unfold movePlayersToTalkingChannel. fold (talkingOf s) (silenceChannelsOf s).
    rewrite Htc. now destruct (silenceChannelsOf s).
Qed.

Lemma X22_reconcile_without_talking_channel_witness :
  let bare := set_channels lingering [mkSessionChannel "silence" SILENCE None] in
  movePlayersToTalkingChannel calmEnv bare (lingeringWorld [] ["bob"])
  = (Throw TypeError, lingeringWorld [] ["bob"]).
Proof.
  cbv zeta.
  apply (X22_reconcile_without_talking_channel calmEnv
           (set_channels lingering [mkSessionChannel "silence" SILENCE None])
           (lingeringWorld [] ["bob"])).
  reflexivity.
Defined.

(** X23: when placing the administrators fails -- a rejected call, a
    missing category channel -- [movePlayersToSilenceChannel] ends there with
    the same failure: the members that are no administrators are not moved,
    no call is issued after the failing one. *)
Theorem X23_admin_failure_stops_silencing (E : Env) (s : AmongUsSession)
        (tc : SessionChannel) (w : World) (e : Thrown) :
  talkingOf s = Some tc ->
  let players := getMembersInChannel w (channelId tc) in
  let admin := assignAdminChannels E (categoryOf s) (adminsIn E players)
                                   (emptyAdminChannelsOf s w) s in
  result admin w = Throw e ->
  result (movePlayersToSilenceChannel E s) w = Throw e /\
  issued (movePlayersToSilenceChannel E s) w = issued admin w.
Proof.
  intros Htc players admin Hadmin.
  pose proof (movePlayersToSilenceChannel_thrown E s tc w e Htc Hadmin) as Hrun.
  fold players in Hrun. fold admin in Hrun.
  unfold result, issued, exec. now rewrite Hrun.
Qed.

(** X24: when an administrator needs a new channel and the session has no
    CATEGORY channel, the administrator is sent the notice and then the
    operation throws a TypeError: no channel is created and nobody is
    moved. *)
Theorem X24_admin_channel_without_category (E : Env) (s : AmongUsSession)
        (tc : SessionChannel) (w : World) (a : string) (rest : list string) :
  talkingOf s = Some tc ->
  categoryOf s = None ->
  adminsIn E (getMembersInChannel w (channelId tc)) = a :: rest ->
  emptyAdminChannelsOf s w = [] ->
  rejects E (createMessage (channel s) (Text (adminNotice a))) = false ->
  result (movePlayersToSilenceChannel E s) w = Throw TypeError /\
  issued (movePlayersToSilenceChannel E s) w
    = [createMessage (channel s) (Text (adminNotice a))].
Proof.
  intros Htc Hcat Hadmins Hempty Hnotice.
  assert (Hadmin :
    assignAdminChannels E (categoryOf s)
      (adminsIn E (getMembersInChannel w (channelId tc))) (emptyAdminChannelsOf s w) s w
    = (Throw TypeError,
       mint (record_call w (createMessage (channel s) (Text (adminNotice a)))))).
  { rewrite Hcat, Hadmins, Hempty. cbn [assignAdminChannels JS.pop].
    unfold bind at 1. rewrite (performId_accepted E _ w Hnotice). reflexivity. }
  assert (Hres : result (assignAdminChannels E (categoryOf s)
      (adminsIn E (getMembersInChannel w (channelId tc))) (emptyAdminChannelsOf s w) s) w
      = Throw TypeError) by (unfold result; now rewrite Hadmin).
  pose proof (movePlayersToSilenceChannel_thrown E s tc w TypeError Htc Hres) as Hrun.
  unfold result, issued, exec in *. rewrite Hrun, Hadmin. cbn [fst snd calls mint record_call].
  split; [reflexivity | apply drop_app_length].
Qed.

Lemma X24_admin_channel_without_category_witness :
  result (movePlayersToSilenceChannel calmEnv lingeringFlat)
         (lingeringWorld ["admin-ann"; "bob"] [])
  = Throw TypeError.
Proof.
  apply (X24_admin_channel_without_category calmEnv lingeringFlat
           (mkSessionChannel "talking" TALKING (Some "invite"))
           (lingeringWorld ["admin-ann"; "bob"] []) "admin-ann" []); reflexivity.
Defined.

(** X25: the reconcilers never write the membership index or the store,
    whatever happens; in particular an admin channel created by
    [movePlayersToSilenceChannel] is added to the session in memory only. *)
Theorem X25_reconcilers_keep_index_and_store (E : Env) (s : AmongUsSession) (w : World) :
  (VOICE_CHANNEL_USERS (exec (movePlayersToSilenceChannel E s) w) = VOICE_CHANNEL_USERS w /\
   store (exec (movePlayersToSilenceChannel E s) w) = store w) /\
  (VOICE_CHANNEL_USERS (exec (movePlayersToTalkingChannel E s) w) = VOICE_CHANNEL_USERS w /\
   store (exec (movePlayersToTalkingChannel E s) w) = store w).
Proof.
  unfold exec. split.
  - destruct (movePlayersToSilenceChannel_frame E s w) as (r & cs & k & ->). now split.
  - destruct (movePlayersToTalkingChannel_frame E s w) as (r & cs & ->). now split.
Qed.

(** ** Cleaning up, further *)

(** X26: [cleanUpOldSessions] stops at the first session whose cleanup
    throws: when that is the first persisted session, no record is removed
    and nothing is done for the sessions after it. *)
Theorem X26_cleanup_stops_at_first_failure (E : Env) (w : World)
        (s : AmongUsSession) (rest : list AmongUsSession) (e : Thrown) :
  store w = s :: rest ->
  result (cleanUpSession E s) w = Throw e ->
  result (cleanUpOldSessions E) w = Throw e /\
  issued (cleanUpOldSessions E) w = issued (cleanUpSession E s) w /\
  store (exec (cleanUpOldSessions E) w) = store w.
Proof.
  intros Hstore Hres.
  pose proof (cleanUpSession_thrown E s w e Hres) as Hkeep.
  assert (Hrun : cleanUpOldSessions E w = (Throw e, exec (cleanUpSession E s) w)).
  { unfold cleanUpOldSessions, bind, findAll. rewrite Hstore. cbn [forOf]. unfold bind.
    unfold result, exec in *. destruct (cleanUpSession E s w) as [r w'].
    cbn [fst snd] in *. now subst r. }
  unfold result, issued, exec in *. rewrite Hrun. cbn [fst snd]. repeat split.
  exact Hkeep.
Qed.

Lemma X26_cleanup_stops_at_first_failure_witness :
  store (exec (cleanUpOldSessions goneEnv)
              (set_store emptyWorld [lingering; lingeringFlat]))
  = [lingering; lingeringFlat].
Proof.
  apply (X26_cleanup_stops_at_first_failure goneEnv
           (set_store emptyWorld [lingering; lingeringFlat]) lingering [lingeringFlat]
           (Rejected (deletion (mkSessionChannel "category" CATEGORY None))));
    reflexivity.
Defined.

(** X27: cleaning up one session never removes the record of another:
    every persisted session with a different key is still in the store
    afterwards, whether the cleanup succeeds or throws; and when it
    succeeds, no record with the session's key is left. *)
Theorem X27_cleanup_keeps_other_sessions (E : Env) (s : AmongUsSession) (w : World) :
  (forall s', s' ∈ store w -> pk s' <> pk s ->
              s' ∈ store (exec (cleanUpSession E s) w)) /\
  (result (cleanUpSession E s) w = Return tt ->
   forall s', s' ∈ store (exec (cleanUpSession E s) w) -> pk s' <> pk s).
Proof.
  split.
  - intros s' Hin Hpk.
    destruct (cleanUpSession_store E s w) as [->| ->]; [exact Hin|].
    now apply elem_of_without.
  - intros Hres s' Hin.
    rewrite (cleanUpSession_returned E s w Hres) in Hin.
    now apply elem_of_without in Hin.
Qed.

Lemma X23_admin_failure_stops_silencing_witness :
  issued (movePlayersToSilenceChannel calmEnv lingeringFlat)
         (lingeringWorld ["admin-ann"; "bob"] [])
  = issued (assignAdminChannels calmEnv None ["admin-ann"] [] lingeringFlat)
           (lingeringWorld ["admin-ann"; "bob"] []).
Proof.
  apply (X23_admin_failure_stops_silencing calmEnv lingeringFlat
           (mkSessionChannel "talking" TALKING (Some "invite"))
           (lingeringWorld ["admin-ann"; "bob"] []) TypeError); reflexivity.
Defined.

Lemma X27_cleanup_keeps_other_sessions_witness :
  let other := mkSession 8 "guild" "text" "status2" "host2" LOBBY ASIA "QWERTY" [] in
  other ∈ store (exec (cleanUpSession goneEnv lingering)
                      (set_store emptyWorld [lingering; other])).
Proof.
  cbv zeta.
  apply (X27_cleanup_keeps_other_sessions goneEnv lingering
           (set_store emptyWorld
              [lingering; mkSession 8 "guild" "text" "status2" "host2" LOBBY ASIA "QWERTY" []])).
  - apply list_elem_of_further, list_elem_of_here.
  - cbn. lia.
Defined.

(** ** Starting up *)

(** X28: whatever the platform does, the startup routine removes no session
    record and leaves the index alone; it issues its own steps, in the order
    of the source, up to and including the first one that is rejected, and
    nothing after it: it ends with that rejection, or normally when no step
    is rejected. It never deletes a channel or edits a message. *)
Theorem X28_startup_touches_no_session (E : Env) (w : World) :
  store (exec (main E) w) = store w /\
  VOICE_CHANNEL_USERS (exec (main E) w) = VOICE_CHANNEL_USERS w /\
  issued (main E) w = attempted E (startupSteps E) /\
  result (main E) w = outcome E (startupSteps E) /\
  (forall c, c ∈ issued (main E) w -> c ∈ startupSteps E) /\
  (forall c sid why cid mid e,
     c ∈ issued (main E) w -> c <> deleteChannel sid why /\ c <> editMessage cid mid e).
Proof.
  assert (Hsub : forall cs c, c ∈ attempted E cs -> c ∈ cs).
  { induction cs as [|x cs IH]; intros c Hc; [exact Hc|].
    cbn [attempted] in Hc. apply elem_of_cons in Hc as [->|Hc].
    - apply list_elem_of_here.
    - apply list_elem_of_further. destruct (rejects E x); [|now apply IH].
      now apply elem_of_nil in Hc. }
  assert (Hrun : store (exec (main E) w) = store w /\
                 VOICE_CHANNEL_USERS (exec (main E) w) = VOICE_CHANNEL_USERS w /\
                 issued (main E) w = attempted E (startupSteps E) /\
                 result (main E) w = outcome E (startupSteps E)).
  { unfold issued, result, exec, main, bind, perform, outcome, startupSteps.
    cbn [attempted List.find].
    repeat match goal with
           | |- context [rejects E ?c] => destruct (rejects E c)
           end;
      cbn [fst snd store calls VOICE_CHANNEL_USERS record_call];
      (split; [reflexivity|]); (split; [reflexivity|]);
      rewrite <- ?app_assoc; cbn [app]; rewrite drop_app_length; now split. }
  destruct Hrun as (Hstore & Hindex & Hissued & Hresult).
  split; [exact Hstore|]. split; [exact Hindex|].
  split; [exact Hissued|]. split; [exact Hresult|].
  assert (Hown : forall c, c ∈ issued (main E) w -> c ∈ startupSteps E).
  { intros c Hc. rewrite Hissued in Hc. now apply Hsub. }
  split; [exact Hown|].
  intros c sid why cid mid e Hc. apply Hown in Hc. unfold startupSteps in Hc.
  repeat (apply elem_of_cons in Hc as [->|Hc]; [split; discriminate|]).
  now apply elem_of_nil in Hc.
Qed.
